(** * SunPy gallery examples: header correction of an HMI synoptic map and
      edge enhancement of an AIA submap

    Shallow embedding of the two scripts
    [examples/plotting/hmi_synoptic_maps.py] and
    [examples/loop_edge_enhance.py].

    Numbers are real numbers ([R]): the properties below are about which
    expression is stored where, not about rounding.  Where NaN pixels
    matter, the filter is also given over samples that are a real number
    or NaN; infinities are not represented.  Python objects that the scripts share and mutate
    (a map, its metadata mapping, its plot settings, data arrays) live in a
    store indexed by object identity, and a script is a computation in a
    state-and-exception monad over that store. *)

From Stdlib Require Import Reals Lra.
From stdpp Require Import base gmap strings list fin_maps.

(** ** Python values and exceptions *)

Inductive exn : Type :=
| KeyError (k : string)
| TypeError
| AttributeError.

Inductive result (A : Type) : Type :=
| Ok (a : A)
| Raise (e : exn).
Arguments Ok {A} a.
Arguments Raise {A} e.

(** A header value: the metadata mapping holds numbers and strings. *)
Inductive Scalar : Type :=
| Number (x : R)
| Text (s : string).

(** A plot setting: a colour map name, or the normalisation object that
    the entry refers to. *)
Inductive setting : Type :=
| Cmap (name : string)
| Norm (l : positive).

(** Axis of a 2-D array: [axis=0] runs down the rows, [axis=1] along a row. *)
Inductive axis : Type :=
| Axis0
| Axis1.

(** ** Python arithmetic on header values *)

Fixpoint str_repeat (s : string) (n : nat) : string :=
  match n with
  | O => EmptyString
  | S n' => String.append s (str_repeat s n')
  end.

(** [f * v] for a float [f]: a number is multiplied, a string operand raises
    [TypeError]. *)
Definition mul_float (f : R) (v : Scalar) : result Scalar :=
  match v with
  | Number x => Ok (Number (f * x)%R)
  | Text _ => Raise TypeError
  end.

(** [v *= n] for an integer literal [n]: a number is multiplied; a string is
    repeated [n] times, which is the empty string for [n <= 0]. *)
Definition imul_int (v : Scalar) (n : Z) : result Scalar :=
  match v with
  | Number x => Ok (Number (x * IZR n)%R)
  | Text s => Ok (Text (str_repeat s (Z.to_nat n)))
  end.

(** ** 2-D arrays and the filters of [loop_edge_enhance.py]

    An array is the list of its rows.  The script calls
    [scipy.ndimage.sobel] and [numpy.hypot], library functions whose code
    is not among the example sources; they are modelled from section 4.4 of
    the specification, which gives the filter as a first-derivative (edge)
    operator applied along each axis with constant (zero-padded) boundary
    handling and combined per pixel by [sqrt(gx² + gy²)]. *)

Module Ndimage.

Definition shape (a : list (list R)) : nat * nat :=
  (length a, match a with [] => 0 | row :: _ => length row end).

(** [a[i, j]] extended beyond the array by the constant [cval]. *)
Definition pixel (cval : R) (a : list (list R)) (i j : Z) : R :=
  if decide (0 ≤ i ∧ 0 ≤ j)%Z then
    match a !! Z.to_nat i with
    | Some row => default cval (row !! Z.to_nat j)
    | None => cval
    end
  else cval.

(** The array of a given shape whose entry at [(i, j)] is [f i j]. *)
Definition tabulate (sh : nat * nat) (f : nat → nat → R) : list (list R) :=
  (λ i, f i <$> seq 0 sh.2) <$> seq 0 sh.1.

(** One output sample of a 1-D correlation of the line [line] with the
    weights [w], centred on the middle weight:
    [sum_k w[k] * line[l + k - len(w) // 2]], accumulated from zero in
    the order of the weights. *)
Definition correlate_at (w : list R) (line : Z → R) (l : Z) : R :=
  foldl Rplus 0%R
    (imap (λ k wk, (wk * line (l + Z.of_nat k - Z.of_nat (length w) `div` 2)%Z)%R) w).

(** Modelled from the spec: the 1-D correlation [sobel] is made of, which is
    library code.  Every line of [a] along the axis [ax] is correlated with
    the weights [w], the line extended by [cval] at both ends (the constant
    boundary handling of section 4.4); the result has the shape of [a]. *)
Definition correlate1d (w : list R) (ax : axis) (cval : R)
    (a : list (list R)) : list (list R) :=
  tabulate (shape a) (λ i j,
    match ax with
    | Axis0 => correlate_at w (λ t, pixel cval a t (Z.of_nat j)) (Z.of_nat i)
    | Axis1 => correlate_at w (λ t, pixel cval a (Z.of_nat i) t) (Z.of_nat j)
    end).

Definition other_axis (ax : axis) : axis :=
  match ax with Axis0 => Axis1 | Axis1 => Axis0 end.

(** Modelled from the spec: [ndimage.sobel(a, axis=ax, mode='constant')],
    library code.  The first-derivative operator of section 4.4 is the
    Sobel filter the script names: the weights [-1, 0, 1] along [ax], then
    the weights [1, 2, 1] along the other axis, beyond the array the
    constant [cval = 0.0]. *)
Definition sobel (a : list (list R)) (ax : axis) : list (list R) :=
  correlate1d [1; 2; 1]%R (other_axis ax) 0%R
    (correlate1d [-1; 0; 1]%R ax 0%R a).

(** Modelled from the spec: [hypot] of two numbers, library code; section
    4.4 gives it as [sqrt(gx² + gy²)]. *)
Definition hypot (x y : R) : R := sqrt (x * x + y * y).

(** Modelled from the spec: [np.hypot(x, y)] on arrays, library code,
    applied per pixel (section 4.4).  Both operands of the script come from
    the same input and have its shape. *)
Definition hypot_arr (x y : list (list R)) : list (list R) :=
  zip_with (zip_with hypot) x y.

(** The value of [edge_enhanced_im] for the input array [a]. *)
Definition edge_enhance (a : list (list R)) : list (list R) :=
  hypot_arr (sobel a Axis0) (sobel a Axis1).

(** The 3x3 Sobel response at [(i, j)] written out over the zero-extended
    neighbourhood: the difference across the axis, weighted 1, 2, 1 along
    the other axis.  Used to state what [sobel] computes. *)
Definition sobel_kernel (a : list (list R)) (ax : axis) (i j : Z) : R :=
  match ax with
  | Axis0 =>
      (pixel 0 a (i + 1) (j - 1) - pixel 0 a (i - 1) (j - 1))
      + 2 * (pixel 0 a (i + 1) j - pixel 0 a (i - 1) j)
      + (pixel 0 a (i + 1) (j + 1) - pixel 0 a (i - 1) (j + 1))
  | Axis1 =>
      (pixel 0 a (i - 1) (j + 1) - pixel 0 a (i - 1) (j - 1))
      + 2 * (pixel 0 a i (j + 1) - pixel 0 a i (j - 1))
      + (pixel 0 a (i + 1) (j + 1) - pixel 0 a (i + 1) (j - 1))
  end%R.

(** A well-formed 2-D array with [m] columns: every row has length [m]. *)
Definition rectangular (m : nat) (a : list (list R)) : Prop :=
  Forall (λ row, length row = m) a.

(** Every entry of [a] equals [v]. *)
Definition constant_valued (v : R) (a : list (list R)) : Prop :=
  Forall (Forall (λ x, x = v)) a.

End Ndimage.

(** ** Samples that may be NaN

    Image data routinely holds NaN pixels, which the real numbers above
    cannot express.  The filter is given a second time over samples that
    are a real number or NaN, to state what it does with them. *)

Inductive sample : Type :=
| Finite (x : R)
| NaN.

Module Nan.

(** Modelled from the spec: floating-point addition and multiplication,
    which are not among the example sources.  Section 4.4 of the
    specification: NaN propagates per IEEE 754 semantics, so an operation
    with a NaN operand is NaN, also [0 * NaN].  Infinities and rounding are
    not represented. *)
Definition add (x y : sample) : sample :=
  match x, y with
  | Finite a, Finite b => Finite (a + b)
  | _, _ => NaN
  end.

Definition mul (x y : sample) : sample :=
  match x, y with
  | Finite a, Finite b => Finite (a * b)
  | _, _ => NaN
  end.

(** Modelled from the spec: [hypot] on samples, library code; section 4.4
    gives it as [sqrt(gx² + gy²)], NaN when an operand is NaN. *)
Definition hypot (x y : sample) : sample :=
  match x, y with
  | Finite a, Finite b => Finite (Ndimage.hypot a b)
  | _, _ => NaN
  end.


Definition shape (a : list (list sample)) : nat * nat :=
  (length a, match a with [] => 0 | row :: _ => length row end).

(** [a[i, j]] extended beyond the array by the constant [cval]. *)
Definition pixel (cval : R) (a : list (list sample)) (i j : Z) : sample :=
  if decide (0 ≤ i ∧ 0 ≤ j)%Z then
    match a !! Z.to_nat i with
    | Some row => default (Finite cval) (row !! Z.to_nat j)
    | None => Finite cval
    end
  else Finite cval.

Definition tabulate (sh : nat * nat) (f : nat → nat → sample)
  : list (list sample) :=
  (λ i, f i <$> seq 0 sh.2) <$> seq 0 sh.1.

(** As [Ndimage.correlate_at], every product and sum a floating-point
    operation: the sample under a zero weight is multiplied too. *)
Definition correlate_at (w : list R) (line : Z → sample) (l : Z) : sample :=
  foldl add (Finite 0)
    (imap (λ k wk,
             mul (Finite wk)
                 (line (l + Z.of_nat k - Z.of_nat (length w) `div` 2)%Z)) w).

(** Modelled from the spec: the 1-D correlation of [Ndimage.correlate1d],
    on samples. *)
Definition correlate1d (w : list R) (ax : axis) (cval : R)
    (a : list (list sample)) : list (list sample) :=
  tabulate (shape a) (λ i j,
    match ax with
    | Axis0 => correlate_at w (λ t, pixel cval a t (Z.of_nat j)) (Z.of_nat i)
    | Axis1 => correlate_at w (λ t, pixel cval a (Z.of_nat i) t) (Z.of_nat j)
    end).

(** Modelled from the spec: [ndimage.sobel(a, axis=ax, mode='constant')] as
    [Ndimage.sobel], on samples. *)
Definition sobel (a : list (list sample)) (ax : axis) : list (list sample) :=
  correlate1d [1; 2; 1]%R (Ndimage.other_axis ax) 0%R
    (correlate1d [-1; 0; 1]%R ax 0%R a).

(** Modelled from the spec: [np.hypot(x, y)] on arrays of samples, per
    pixel. *)
Definition hypot_arr (x y : list (list sample)) : list (list sample) :=
  zip_with (zip_with hypot) x y.

(** The value of [edge_enhanced_im] for the input array [a]. *)
Definition edge_enhance (a : list (list sample)) : list (list sample) :=
  hypot_arr (sobel a Axis0) (sobel a Axis1).


End Nan.


(** ** The object store *)

Abbreviation loc := positive.

(** Modelled from the spec: the classes of a map, of its metadata mapping
    and of its plot settings are not among the example sources.  Section 3
    of the specification: an Image Map has a 2-D array of samples and a
    metadata mapping from string keys to scalar values, and carries display
    hints; the script reaches them as [.data], [.meta] and
    [.plot_settings].  [Normalize] is the object that a call of
    [plt.Normalize(vmin, vmax)] creates. *)
Inductive obj : Type :=
| Ndarray (a : list (list R))
| MetaDict (m : gmap string Scalar)
| PlotSettings (m : gmap string setting)
| GenericMap (data meta plot_settings : loc)
| Normalize (vmin vmax : R).

(** A statement either completes or raises; either way it leaves a store
    behind, since effects before an exception persist. *)
Inductive outcome (A : Type) : Type :=
| Done (a : A) (σ : gmap loc obj)
| Raised (e : exn) (σ : gmap loc obj).
Arguments Done {A} a σ.
Arguments Raised {A} e σ.

Definition py (A : Type) : Type := gmap loc obj → outcome A.

Definition ret {A : Type} (a : A) : py A := λ σ, Done a σ.

Definition raise {A : Type} (e : exn) : py A := λ σ, Raised e σ.

Definition bind {A B : Type} (k : A → py B) (c : py A) : py B :=
  λ σ, match c σ with
       | Done a σ' => k a σ'
       | Raised e σ' => Raised e σ'
       end.

(** [x ← c; k] and [c;; k] are the sequencing of this monad. *)
#[global] Instance py_ret : MRet py := @ret.
#[global] Instance py_bind : MBind py := @bind.

Definition lift {A : Type} (r : result A) : py A :=
  match r with
  | Ok a => ret a
  | Raise e => raise e
  end.

(** The object a reference names.  Every Python reference names an object;
    a location outside the store is answered with [AttributeError]. *)
Definition deref (l : loc) : py obj :=
  λ σ, match σ !! l with
       | Some o => Done o σ
       | None => Raised AttributeError σ
       end.

(** A new object, at a location no object has yet. *)
Definition alloc (o : obj) : py loc :=
  λ σ, let l := fresh (dom σ) in Done l (<[l := o]> σ).

(** In-place replacement of the object at [l]. *)
Definition update (l : loc) (o : obj) : py unit :=
  λ σ, Done tt (<[l := o]> σ).

(** Attribute reads [m.data], [m.meta] and [m.plot_settings]. *)
Definition attr_data (r : loc) : py loc :=
  o ← deref r;
  match o with GenericMap d _ _ => ret d | _ => raise AttributeError end.

Definition attr_meta (r : loc) : py loc :=
  o ← deref r;
  match o with GenericMap _ mt _ => ret mt | _ => raise AttributeError end.

Definition attr_plot_settings (r : loc) : py loc :=
  o ← deref r;
  match o with GenericMap _ _ ps => ret ps | _ => raise AttributeError end.

(** ** The metadata mapping and the plot settings *)

(** Modelled from the spec: [d[k]] on the metadata mapping, whose class is
    not among the example sources.  Section 6 of the specification: a
    mapping interface supporting get and set by string key; a missing key
    raises [KeyError] as for a dictionary. *)
Definition meta_getitem (d : loc) (k : string) : py Scalar :=
  o ← deref d;
  match o with
  | MetaDict m =>
      match m !! k with
      | Some v => ret v
      | None => raise (KeyError k)
      end
  | _ => raise TypeError
  end.

(** Modelled from the spec: [d[k] = v] on the metadata mapping (section 6,
    set by string key); the entry is written in the mapping object
    itself. *)
Definition meta_setitem (d : loc) (k : string) (v : Scalar) : py unit :=
  o ← deref d;
  match o with
  | MetaDict m => update d (MetaDict (<[k := v]> m))
  | _ => raise TypeError
  end.

(** [d[k] = v] on the plot settings, a dictionary. *)
Definition settings_setitem (d : loc) (k : string) (v : setting) : py unit :=
  o ← deref d;
  match o with
  | PlotSettings m => update d (PlotSettings (<[k := v]> m))
  | _ => raise TypeError
  end.

(** A block of statements, run in order; the first exception ends it. *)
Fixpoint block (stmts : list (py unit)) : py unit :=
  match stmts with
  | [] => ret tt
  | s :: rest => s;; block rest
  end.

(** ** [hmi_synoptic_maps.py]: the header correction and the plot settings *)

Module HMI.

(** [syn_map.meta['CUNIT2'] = 'degree'] *)
Definition fix_cunit2 (syn_map : loc) : py unit :=
  mt ← attr_meta syn_map;
  meta_setitem mt "CUNIT2" (Text "degree").

(** [syn_map.meta['CDELT2'] = 180 / np.pi * syn_map.meta['CDELT2']]:
    the right-hand side is evaluated first, then the target. *)
Definition fix_cdelt2 (syn_map : loc) : py unit :=
  mt ← attr_meta syn_map;
  v ← meta_getitem mt "CDELT2";
  r ← lift (mul_float (180 / PI)%R v);
  mt' ← attr_meta syn_map;
  meta_setitem mt' "CDELT2" r.

(** [syn_map.meta['CDELT1'] *= -1]: the mapping is looked up once, the
    entry read, multiplied and written back. *)
Definition fix_cdelt1 (syn_map : loc) : py unit :=
  mt ← attr_meta syn_map;
  v ← meta_getitem mt "CDELT1";
  r ← lift (imul_int v (-1));
  meta_setitem mt "CDELT1" r.

(** The three statements of the correction, in the order of the script. *)
Definition correction (syn_map : loc) : list (py unit) :=
  [fix_cunit2 syn_map; fix_cdelt2 syn_map; fix_cdelt1 syn_map].

Definition correct_header (syn_map : loc) : py unit :=
  block (correction syn_map).

(** [syn_map.plot_settings['cmap'] = 'hmimag'] *)
Definition set_cmap (syn_map : loc) : py unit :=
  ps ← attr_plot_settings syn_map;
  settings_setitem ps "cmap" (Cmap "hmimag").

(** [syn_map.plot_settings['norm'] = plt.Normalize(-1500, 1500)]: the
    right-hand side is evaluated first, and the call creates a new
    object; the entry refers to it. *)
Definition set_norm (syn_map : loc) : py unit :=
  n ← alloc (Normalize (-1500) 1500);
  ps ← attr_plot_settings syn_map;
  settings_setitem ps "norm" (Norm n).

(** The adjustments of the script, from the header correction to the plot
    settings. *)
Definition adjust_map (syn_map : loc) : py unit :=
  block (correction syn_map ++ [set_cmap syn_map; set_norm syn_map]).

(** A set of overrides with fixed values, each assigned by a statement of
    the form [syn_map.meta[k] = v], as the script assigns ['CUNIT2']. *)
Definition assign_overrides (syn_map : loc) (ov : list (string * Scalar))
  : py unit :=
  block ((λ kv, mt ← attr_meta syn_map; meta_setitem mt kv.1 kv.2) <$> ov).

End HMI.

(** ** [loop_edge_enhance.py]: the filter and the new map *)

Module Edge.

(** [ndimage.sobel(input, axis=ax, mode='constant')] on array objects: no
    [output] argument is given, and the result is a new array. *)
Definition ndimage_sobel (input : loc) (ax : axis) : py loc :=
  o ← deref input;
  match o with
  | Ndarray a => alloc (Ndarray (Ndimage.sobel a ax))
  | _ => raise TypeError
  end.

(** [np.hypot(x, y)] on array objects: no [out] argument is given, and the
    result is a new array. *)
Definition np_hypot (x y : loc) : py loc :=
  ox ← deref x;
  oy ← deref y;
  match ox, oy with
  | Ndarray ax, Ndarray ay => alloc (Ndarray (Ndimage.hypot_arr ax ay))
  | _, _ => raise TypeError
  end.

(** Modelled from the spec: the map constructor [Map(data, header)] of
    [sunpy.map] is not among the example sources.  Section 4.1 (b) of the
    specification: given an explicit (array, metadata) pair, produce an
    Image Map; section 3: a derived map is an independent value.  The new
    map refers to the given array, holds its own mapping with the entries
    of the given header and its own plot settings [defaults]. *)
Definition Map (defaults : gmap string setting) (data header : loc) : py loc :=
  od ← deref data;
  oh ← deref header;
  match od, oh with
  | Ndarray _, MetaDict m =>
      mt ← alloc (MetaDict m);
      ps ← alloc (PlotSettings defaults);
      alloc (GenericMap data mt ps)
  | _, _ => raise TypeError
  end.

(** The variables the script binds. *)
Record vars : Type := {
  sx : loc;
  sy : loc;
  edge_enhanced_im : loc;
  edge_map : loc
}.

(** Lines 28 to 34 of the script, from the submap [aia_smap]. *)
Definition script (defaults : gmap string setting) (aia_smap : loc) : py vars :=
  d ← attr_data aia_smap;
  x ← ndimage_sobel d Axis0;
  d' ← attr_data aia_smap;
  y ← ndimage_sobel d' Axis1;
  im ← np_hypot x y;
  h ← attr_meta aia_smap;
  em ← Map defaults im h;
  ret {| sx := x; sy := y; edge_enhanced_im := im; edge_map := em |}.

(** The same lines with the two filter passes exchanged. *)
Definition script_swapped (defaults : gmap string setting) (aia_smap : loc)
  : py vars :=
  d' ← attr_data aia_smap;
  y ← ndimage_sobel d' Axis1;
  d ← attr_data aia_smap;
  x ← ndimage_sobel d Axis0;
  im ← np_hypot y x;
  h ← attr_meta aia_smap;
  em ← Map defaults im h;
  ret {| sx := x; sy := y; edge_enhanced_im := im; edge_map := em |}.

End Edge.

(** ** Reading the store *)

(** The array a map holds, its metadata mapping and its plot settings. *)
Definition data_of (σ : gmap loc obj) (r : loc) : option (list (list R)) :=
  match σ !! r with
  | Some (GenericMap d _ _) =>
      match σ !! d with Some (Ndarray a) => Some a | _ => None end
  | _ => None
  end.

Definition meta_of (σ : gmap loc obj) (r : loc) : option (gmap string Scalar) :=
  match σ !! r with
  | Some (GenericMap _ mt _) =>
      match σ !! mt with Some (MetaDict m) => Some m | _ => None end
  | _ => None
  end.

Definition settings_of (σ : gmap loc obj) (r : loc) : option (gmap string setting) :=
  match σ !! r with
  | Some (GenericMap _ _ ps) =>
      match σ !! ps with Some (PlotSettings m) => Some m | _ => None end
  | _ => None
  end.

(** [r] names a map whose three parts are distinct objects of the right
    kinds. *)
Definition is_map (σ : gmap loc obj) (r : loc)
    (a : list (list R)) (m : gmap string Scalar) (s : gmap string setting) : Prop :=
  ∃ d mt ps,
    σ !! r = Some (GenericMap d mt ps) ∧
    σ !! d = Some (Ndarray a) ∧
    σ !! mt = Some (MetaDict m) ∧
    σ !! ps = Some (PlotSettings s).

(** ** Sample stores

    A synoptic map with the header the script finds: ['CUNIT2'] is not a
    unit, and the step sizes are numbers. *)
Definition hmi_store : gmap loc obj :=
  {[ 1%positive := GenericMap 2 3 4;
     2%positive := Ndarray [[0; 0]; [0; 0]]%R;
     3%positive := MetaDict {[ "CUNIT2" := Text "Sine Latitude";
                               "CDELT2" := Number 1;
                               "CDELT1" := Number 1 ]};
     4%positive := PlotSettings ∅ ]}.

(** A 2x2 array of ones and a 3x3 array of ones. *)
Definition ones2 : list (list R) := [[1; 1]; [1; 1]]%R.
Definition ones3 : list (list R) := [[1; 1; 1]; [1; 1; 1]; [1; 1; 1]]%R.

(** A submap holding [ones3]. *)
Definition aia_store : gmap loc obj :=
  {[ 1%positive := GenericMap 2 3 4;
     2%positive := Ndarray ones3;
     3%positive := MetaDict {[ "CUNIT1" := Text "arcsec";
                               "CDELT1" := Number 2 ]};
     4%positive := PlotSettings ∅ ]}.

(** ** [hmi_synoptic_maps.py]: the lines around the correction

    The script prints three header values before the correction and builds
    the plot title from two more after it. *)

(** [v + n] for an integer literal [n]: a number is added to, a string
    operand raises [TypeError]. *)
Definition add_int (v : Scalar) (n : Z) : result Scalar :=
  match v with
  | Number x => Ok (Number (x + IZR n)%R)
  | Text _ => Raise TypeError
  end.

Section header_text.

(** Python's [str] of a header value, which [print] and [format] apply;
    the text of a number is left open. *)
Variable str_of : Scalar → string.

(** [print(syn_map.meta[k])]: one more line on the standard output, whose
    lines so far are [out]. *)
Definition print_meta (syn_map : loc) (k : string) (out : list string)
  : py (list string) :=
  mt ← attr_meta syn_map;
  v ← meta_getitem mt k;
  ret (out ++ [str_of v]).

(** Lines 27, 33 and 34: ['CUNIT2'], ['CTYPE1'] and ['CTYPE2'] are
    printed. *)
Definition inspect_header (syn_map : loc) (out : list string)
  : py (list string) :=
  out1 ← print_meta syn_map "CUNIT2" out;
  out2 ← print_meta syn_map "CTYPE1" out1;
  print_meta syn_map "CTYPE2" out2.

(** Lines 27 to 46: the prints, then the correction. *)
Definition inspect_and_correct (syn_map : loc) (out : list string)
  : py (list string) :=
  out' ← inspect_header syn_map out;
  HMI.correct_header syn_map;;
  ret out'.

(** Lines 82 and 83, the argument of [plt.title]:
    ["{} {}-{}".format(meta['content'], meta['CAR_ROT'], meta['CAR_ROT'] + 1)],
    the arguments evaluated from left to right. *)
Definition title (syn_map : loc) : py string :=
  mt ← attr_meta syn_map;
  content ← meta_getitem mt "content";
  mt1 ← attr_meta syn_map;
  rot ← meta_getitem mt1 "CAR_ROT";
  mt2 ← attr_meta syn_map;
  rot' ← meta_getitem mt2 "CAR_ROT";
  next ← lift (add_int rot' 1);
  ret (str_of content +:+ " " +:+ str_of rot +:+ "-" +:+ str_of next).

End header_text.

(** ** Arrays to state properties of the filter with

    [c * a] and [a + k] on an array, entry by entry. *)
Definition scale (c : R) (a : list (list R)) : list (list R) :=
  (λ row : list R, (λ x, (c * x)%R) <$> row) <$> a.

Definition offset (k : R) (a : list (list R)) : list (list R) :=
  (λ row : list R, (λ x, (x + k)%R) <$> row) <$> a.

(** ** More sample stores

    A map at location 1 with the header [m], a 2x2 array of zeros and no
    plot settings yet. *)
Definition store_with (m : gmap string Scalar) : gmap loc obj :=
  {[ 1%positive := GenericMap 2 3 4;
     2%positive := Ndarray [[0; 0]; [0; 0]]%R;
     3%positive := MetaDict m;
     4%positive := PlotSettings ∅ ]}.

(** A header with all the keys the script reads. *)
Definition full_header : gmap string Scalar :=
  {[ "CUNIT2" := Text "Sine Latitude";
     "CTYPE1" := Text "CRLN-CEA";
     "CTYPE2" := Text "CRLT-CEA";
     "CDELT2" := Number 1;
     "CDELT1" := Number 1;
     "content" := Text "Carrington Synoptic Chart Of Br Field";
     "CAR_ROT" := Number 2191 ]}.

(** A 3x3 array with a vertical edge: two columns of zeros, one of
    ones. *)
Definition step3 : list (list R) := [[0; 0; 1]; [0; 0; 1]; [0; 0; 1]]%R.

(** A stand-in for [str]: a string is itself, a number is not spelled
    out. *)
Definition sample_str (v : Scalar) : string :=
  match v with
  | Text s => s
  | Number _ => "#"
  end.

(** * Properties *)

(** ** Running statements *)

Ltac py_unfold :=
  unfold HMI.fix_cunit2, HMI.fix_cdelt2, HMI.fix_cdelt1, HMI.set_cmap,
    HMI.set_norm, attr_data, attr_meta, attr_plot_settings, meta_getitem,
    meta_setitem, settings_setitem, lift, mul_float, imul_int, update,
    deref, raise, mbind, py_bind, bind, mret, py_ret, ret.

(** Two references to objects of different contents are different
    references, so a write through one leaves the other object in place. *)
Lemma lookup_other_kind (σ : gmap loc obj) (r l : loc) (o o' new : obj) :
  σ !! r = Some o → σ !! l = Some o' → o ≠ o' →
  <[l := new]> σ !! r = Some o.
Proof.
  intros Hr Hl Hne. rewrite lookup_insert_ne; [done|].
  intros ->. rewrite Hr in Hl. congruence.
Qed.

Lemma lookup_alloc_old (σ : gmap loc obj) (l : loc) (o new : obj) :
  σ !! l = Some o → <[fresh (dom σ) := new]> σ !! l = Some o.
Proof.
  intros Hl. rewrite lookup_insert_ne; [done|].
  intros <-. apply (elem_of_dom_2 (D := gset loc)) in Hl.
  by apply is_fresh in Hl.
Qed.

Lemma alloc_subseteq (σ : gmap loc obj) (new : obj) :
  σ ⊆ <[fresh (dom σ) := new]> σ.
Proof. apply insert_subseteq, (not_elem_of_dom (D := gset loc)), is_fresh. Qed.

Section meta_statements.
Context (σ : gmap loc obj) (r d mt ps : loc) (m : gmap string Scalar).
Hypothesis Hr : σ !! r = Some (GenericMap d mt ps).
Hypothesis Hmt : σ !! mt = Some (MetaDict m).

Lemma fix_cunit2_run :
  HMI.fix_cunit2 r σ =
    Done tt (<[mt := MetaDict (<["CUNIT2" := Text "degree"]> m)]> σ).
Proof. py_unfold. rewrite Hr, Hmt. reflexivity. Qed.

Lemma fix_cdelt2_run :
  HMI.fix_cdelt2 r σ =
    match m !! "CDELT2" with
    | Some (Number x) =>
        Done tt (<[mt := MetaDict (<["CDELT2" := Number (180 / PI * x)%R]> m)]> σ)
    | Some (Text _) => Raised TypeError σ
    | None => Raised (KeyError "CDELT2") σ
    end.
Proof.
  py_unfold. rewrite Hr, Hmt.
  destruct (m !! "CDELT2") as [[x|t]|]; try reflexivity.
  rewrite Hr, Hmt. reflexivity.
Qed.

Lemma fix_cdelt1_run :
  HMI.fix_cdelt1 r σ =
    match m !! "CDELT1" with
    | Some (Number x) =>
        Done tt (<[mt := MetaDict (<["CDELT1" := Number (x * IZR (-1))%R]> m)]> σ)
    | Some (Text t) =>
        Done tt (<[mt := MetaDict (<["CDELT1" := Text ""]> m)]> σ)
    | None => Raised (KeyError "CDELT1") σ
    end.
Proof.
  py_unfold. rewrite Hr, Hmt.
  destruct (m !! "CDELT1") as [[x|t]|]; try rewrite Hmt; reflexivity.
Qed.
End meta_statements.

Lemma block_nil (σ : gmap loc obj) : block [] σ = Done tt σ.
Proof. reflexivity. Qed.

Lemma block_cons (s : py unit) (rest : list (py unit)) (σ : gmap loc obj) :
  block (s :: rest) σ =
    match s σ with
    | Done _ σ' => block rest σ'
    | Raised e σ' => Raised e σ'
    end.
Proof. reflexivity. Qed.

(** The statements of the correction on a store in which the mapping of the
    map [r] has already been written: the store stays of the form
    [<[mt := MetaDict _]> σ]. *)
Section written_store.
Context (σ : gmap loc obj) (r d mt ps : loc) (m0 : gmap string Scalar).
Hypothesis Hr : σ !! r = Some (GenericMap d mt ps).
Hypothesis Hmt : σ !! mt = Some (MetaDict m0).

Lemma written_map (m : gmap string Scalar) :
  <[mt := MetaDict m]> σ !! r = Some (GenericMap d mt ps).
Proof. by eapply lookup_other_kind. Qed.

Lemma written_meta (m : gmap string Scalar) :
  <[mt := MetaDict m]> σ !! mt = Some (MetaDict m).
Proof. apply lookup_insert_eq. Qed.

Lemma written_meta_of (m : gmap string Scalar) :
  meta_of (<[mt := MetaDict m]> σ) r = Some m.
Proof. unfold meta_of. by rewrite written_map, written_meta. Qed.

Lemma written_start : σ = <[mt := MetaDict m0]> σ.
Proof. symmetry. by apply insert_id. Qed.

Lemma fix_cunit2_at (m : gmap string Scalar) :
  HMI.fix_cunit2 r (<[mt := MetaDict m]> σ) =
    Done tt (<[mt := MetaDict (<["CUNIT2" := Text "degree"]> m)]> σ).
Proof.
  rewrite (fix_cunit2_run _ r d mt ps m (written_map m) (written_meta m)).
  by rewrite insert_insert_eq.
Qed.

Lemma fix_cdelt2_at (m : gmap string Scalar) :
  HMI.fix_cdelt2 r (<[mt := MetaDict m]> σ) =
    match m !! "CDELT2" with
    | Some (Number x) =>
        Done tt (<[mt := MetaDict (<["CDELT2" := Number (180 / PI * x)%R]> m)]> σ)
    | Some (Text _) => Raised TypeError (<[mt := MetaDict m]> σ)
    | None => Raised (KeyError "CDELT2") (<[mt := MetaDict m]> σ)
    end.
Proof.
  rewrite (fix_cdelt2_run _ r d mt ps m (written_map m) (written_meta m)).
  destruct (m !! "CDELT2") as [[x|t]|]; try done.
  by rewrite insert_insert_eq.
Qed.

Lemma fix_cdelt1_at (m : gmap string Scalar) :
  HMI.fix_cdelt1 r (<[mt := MetaDict m]> σ) =
    match m !! "CDELT1" with
    | Some (Number x) =>
        Done tt (<[mt := MetaDict (<["CDELT1" := Number (x * IZR (-1))%R]> m)]> σ)
    | Some (Text t) =>
        Done tt (<[mt := MetaDict (<["CDELT1" := Text ""]> m)]> σ)
    | None => Raised (KeyError "CDELT1") (<[mt := MetaDict m]> σ)
    end.
Proof.
  rewrite (fix_cdelt1_run _ r d mt ps m (written_map m) (written_meta m)).
  destruct (m !! "CDELT1") as [[x|t]|]; try done; by rewrite insert_insert_eq.
Qed.

(** [meta[k] = v] with a fixed value. *)
Lemma assign_at (k : string) (v : Scalar) (m : gmap string Scalar) :
  (mt' ← attr_meta r; meta_setitem mt' k v) (<[mt := MetaDict m]> σ) =
    Done tt (<[mt := MetaDict (<[k := v]> m)]> σ).
Proof.
  py_unfold. rewrite written_map, written_meta.
  by rewrite insert_insert_eq.
Qed.
End written_store.

(** One step of a block on a written store. *)
Ltac hmi_step Hr Hmt :=
  rewrite block_cons;
  first [ rewrite (fix_cunit2_at _ _ _ _ _ _ Hr Hmt)
        | rewrite (fix_cdelt2_at _ _ _ _ _ _ Hr Hmt)
        | rewrite (fix_cdelt1_at _ _ _ _ _ _ Hr Hmt) ];
  repeat first [ rewrite lookup_insert_eq
               | rewrite lookup_insert_ne by done ].

Lemma correct_header_run (σ : gmap loc obj) (r d mt ps : loc)
    (m : gmap string Scalar) (x c : R) :
  σ !! r = Some (GenericMap d mt ps) →
  σ !! mt = Some (MetaDict m) →
  m !! "CDELT2" = Some (Number x) →
  m !! "CDELT1" = Some (Number c) →
  HMI.correct_header r σ =
    Done tt (<[mt := MetaDict
                 (<["CDELT1" := Number (c * IZR (-1))%R]>
                  (<["CDELT2" := Number (180 / PI * x)%R]>
                   (<["CUNIT2" := Text "degree"]> m)))]> σ).
Proof.
  intros Hr Hmt Hx Hc. unfold HMI.correct_header, HMI.correction.
  rewrite (written_start σ mt m Hmt) at 1.
  hmi_step Hr Hmt. hmi_step Hr Hmt. rewrite Hx.
  hmi_step Hr Hmt. rewrite Hc.
  by rewrite block_nil.
Qed.

Lemma hmi_store_is_map :
  is_map hmi_store 1 [[0; 0]; [0; 0]]%R
    {[ "CUNIT2" := Text "Sine Latitude"; "CDELT2" := Number 1;
       "CDELT1" := Number 1 ]} ∅.
Proof. exists 2%positive, 3%positive, 4%positive. repeat split; reflexivity. Defined.

(** ** The header correction *)

(** C1: on a map whose metadata holds CDELT2 = d and CDELT1 = c, the
    correction completes and leaves the map with CDELT2 = 180/π × d,
    CDELT1 = -c and CUNIT2 = 'degree'. *)
Theorem sine_latitude_correction (σ : gmap loc obj) (r : loc)
    (a : list (list R)) (m : gmap string Scalar) (s : gmap string setting)
    (d c : R) :
  is_map σ r a m s →
  m !! "CDELT2" = Some (Number d) →
  m !! "CDELT1" = Some (Number c) →
  ∃ σ' m',
    HMI.correct_header r σ = Done tt σ' ∧
    meta_of σ' r = Some m' ∧
    m' !! "CDELT2" = Some (Number (180 / PI * d)%R) ∧
    m' !! "CDELT1" = Some (Number (- c)%R) ∧
    m' !! "CUNIT2" = Some (Text "degree").
Proof.
  intros (dl & mt & ps & Hr & Hd & Hmt & Hps) Hx Hc.
  eexists _, _. split; [by eapply correct_header_run|].
  unfold meta_of. rewrite (written_map σ r dl mt ps m Hr Hmt), lookup_insert_eq.
  split; [reflexivity|].
  repeat first [ rewrite lookup_insert_eq | rewrite lookup_insert_ne by done ].
  repeat split. do 2 f_equal. simpl. lra.
Qed.

Lemma sine_latitude_correction_witness :
  ∃ σ' m',
    HMI.correct_header 1 hmi_store = Done tt σ' ∧
    meta_of σ' 1 = Some m' ∧
    m' !! "CDELT2" = Some (Number (180 / PI * 1)%R) ∧
    m' !! "CDELT1" = Some (Number (- 1)%R) ∧
    m' !! "CUNIT2" = Some (Text "degree").
Proof.
  apply (sine_latitude_correction hmi_store 1 _ _ _ 1 1 hmi_store_is_map);
    reflexivity.
Defined.

(** Equality of two mappings built by assignments to literal keys. *)
Ltac meta_eq :=
  apply map_eq; intros ?k;
  repeat (rewrite lookup_insert; case_decide; subst; try done).

(** C8: the three corrections write the distinct keys CUNIT2, CDELT2 and
    CDELT1 and each reads only the key it writes, so whenever the script's
    order completes, every other order of the three statements completes
    with the same store, hence the same metadata mapping. *)
Theorem correction_any_order (σ σ' : gmap loc obj) (r : loc)
    (a : list (list R)) (m : gmap string Scalar) (s : gmap string setting)
    (stmts : list (py unit)) :
  is_map σ r a m s →
  stmts ≡ₚ HMI.correction r →
  block (HMI.correction r) σ = Done tt σ' →
  block stmts σ = Done tt σ'.
Proof.
  intros (dl & mt & ps & Hr & Hd & Hmt & Hps) Hperm Hrun.
  symmetry in Hperm. apply permutations_Permutation in Hperm.
  unfold HMI.correction in *. cbn in Hperm.
  destruct (m !! "CDELT2") as [[x|t]|] eqn:Hx;
    destruct (m !! "CDELT1") as [[c|t']|] eqn:Hc;
    revert Hrun; rewrite (written_start σ mt m Hmt) at 1;
    repeat (hmi_step Hr Hmt; rewrite ?Hx, ?Hc); rewrite ?block_nil;
    intros Hrun; try discriminate Hrun; injection Hrun as <-.
  all: repeat (apply elem_of_cons in Hperm as [-> | Hperm]);
    try (by apply elem_of_nil in Hperm).
  all: rewrite (written_start σ mt m Hmt) at 1;
    repeat (hmi_step Hr Hmt; rewrite ?Hx, ?Hc); rewrite ?block_nil.
  all: do 3 f_equal; meta_eq.
Qed.

Lemma correction_any_order_witness :
  block [HMI.fix_cdelt1 1; HMI.fix_cunit2 1; HMI.fix_cdelt2 1] hmi_store =
    Done tt
      (<[3%positive := MetaDict
           (<["CDELT1" := Number (1 * IZR (-1))%R]>
            (<["CDELT2" := Number (180 / PI * 1)%R]>
             (<["CUNIT2" := Text "degree"]>
              {[ "CUNIT2" := Text "Sine Latitude"; "CDELT2" := Number 1;
                 "CDELT1" := Number 1 ]})))]> hmi_store).
Proof.
  apply (correction_any_order hmi_store _ 1 _ _ _ _ hmi_store_is_map).
  - etrans; [apply perm_swap|]. apply perm_skip, perm_swap.
  - reflexivity.
Defined.

(** ** Reapplying an adjustment *)

(** A run of assignments with fixed values is a left-biased union with the
    assigned entries, later assignments first. *)
Lemma assignments_union (ov : list (string * Scalar)) (m : gmap string Scalar) :
  foldl (λ acc kv, <[kv.1 := kv.2]> acc) m ov = list_to_map (reverse ov) ∪ m.
Proof.
  revert m. induction ov as [|[k v] ov IH]; intros m.
  - simpl. by rewrite (left_id_L ∅ (∪)).
  - simpl foldl. rewrite IH, reverse_cons, list_to_map_app. simpl.
    rewrite insert_empty, <- (assoc_L (∪)).
    by rewrite <- insert_union_singleton_l.
Qed.

Lemma assignments_idempotent (ov : list (string * Scalar)) (m : gmap string Scalar) :
  foldl (λ acc kv, <[kv.1 := kv.2]> acc)
    (foldl (λ acc kv, <[kv.1 := kv.2]> acc) m ov) ov =
  foldl (λ acc kv, <[kv.1 := kv.2]> acc) m ov.
Proof.
  rewrite !assignments_union, (assoc_L (∪)).
  by rewrite (idemp_L (∪)).
Qed.

Lemma assign_overrides_at (σ : gmap loc obj) (r d mt ps : loc)
    (m0 m : gmap string Scalar) (ov : list (string * Scalar)) :
  σ !! r = Some (GenericMap d mt ps) →
  σ !! mt = Some (MetaDict m0) →
  HMI.assign_overrides r ov (<[mt := MetaDict m]> σ) =
    Done tt (<[mt := MetaDict (foldl (λ acc kv, <[kv.1 := kv.2]> acc) m ov)]> σ).
Proof.
  intros Hr Hmt. unfold HMI.assign_overrides.
  revert m. induction ov as [|[k v] ov IH]; intros m; [done|].
  rewrite fmap_cons, block_cons.
  rewrite (assign_at σ r d mt ps m0 Hr Hmt). apply IH.
Qed.

Lemma correct_header_twice (σ : gmap loc obj) (r d mt ps : loc)
    (m : gmap string Scalar) (x c : R) :
  σ !! r = Some (GenericMap d mt ps) →
  σ !! mt = Some (MetaDict m) →
  m !! "CDELT2" = Some (Number x) →
  m !! "CDELT1" = Some (Number c) →
  ∃ σ1 σ2,
    HMI.correct_header r σ = Done tt σ1 ∧
    HMI.correct_header r σ1 = Done tt σ2 ∧
    meta_of σ1 r =
      Some (<["CDELT1" := Number (c * IZR (-1))%R]>
            (<["CDELT2" := Number (180 / PI * x)%R]>
             (<["CUNIT2" := Text "degree"]> m))) ∧
    meta_of σ2 r =
      Some (<["CDELT1" := Number (c * IZR (-1) * IZR (-1))%R]>
            (<["CDELT2" := Number (180 / PI * (180 / PI * x))%R]>
             (<["CUNIT2" := Text "degree"]> m))).
Proof.
  intros Hr Hmt Hx Hc. eexists _, _.
  split; [by eapply correct_header_run|].
  split.
  { eapply correct_header_run.
    - by eapply written_map.
    - apply lookup_insert_eq.
    - by rewrite lookup_insert_ne, lookup_insert_eq.
    - by rewrite lookup_insert_eq. }
  rewrite insert_insert_eq, !(written_meta_of σ r d mt ps m Hr Hmt).
  split; [done|]. f_equal. meta_eq.
Qed.

(** C3 (as amended): on every map, assigning a set of overrides with fixed
    values twice leaves the store that assigning it once leaves.  The
    sine-latitude correction computes its values from the entries it finds,
    and a second run on the corrected map rescales CDELT2 once more and
    restores the sign of CDELT1; CUNIT2 stays 'degree'. *)
Theorem reapplied_adjustment (σ : gmap loc obj) (r : loc)
    (a : list (list R)) (m : gmap string Scalar) (s : gmap string setting)
    (ov : list (string * Scalar)) :
  is_map σ r a m s →
  (∃ σ1,
     HMI.assign_overrides r ov σ = Done tt σ1 ∧
     HMI.assign_overrides r ov σ1 = Done tt σ1) ∧
  (∀ d c : R,
     m !! "CDELT2" = Some (Number d) →
     m !! "CDELT1" = Some (Number c) →
     ∃ σ1 σ2,
       HMI.correct_header r σ = Done tt σ1 ∧
       HMI.correct_header r σ1 = Done tt σ2 ∧
       meta_of σ2 r =
         Some (<["CDELT1" := Number c]>
               (<["CDELT2" := Number (180 / PI * (180 / PI * d))%R]>
                (<["CUNIT2" := Text "degree"]> m)))).
Proof.
  intros (dl & mt & ps & Hr & Hd & Hmt & Hps). split.
  - eexists. split.
    + rewrite (written_start σ mt m Hmt) at 1.
      by eapply assign_overrides_at.
    + erewrite assign_overrides_at by done.
      by rewrite assignments_idempotent.
  - intros d c Hx Hc.
    destruct (correct_header_twice σ r dl mt ps m d c Hr Hmt Hx Hc)
      as (σ1 & σ2 & H1 & H2 & _ & H3).
    exists σ1, σ2. repeat split; [done..|].
    rewrite H3. do 3 f_equal. simpl. lra.
Qed.

Lemma reapplied_adjustment_witness :
  (∃ σ1,
     HMI.assign_overrides 1 [("CUNIT2", Text "degree")] hmi_store = Done tt σ1 ∧
     HMI.assign_overrides 1 [("CUNIT2", Text "degree")] σ1 = Done tt σ1) ∧
  (∃ σ1 σ2,
     HMI.correct_header 1 hmi_store = Done tt σ1 ∧
     HMI.correct_header 1 σ1 = Done tt σ2 ∧
     meta_of σ2 1 =
       Some (<["CDELT1" := Number 1]>
             (<["CDELT2" := Number (180 / PI * (180 / PI * 1))%R]>
              (<["CUNIT2" := Text "degree"]>
               {[ "CUNIT2" := Text "Sine Latitude"; "CDELT2" := Number 1;
                  "CDELT1" := Number 1 ]})))).
Proof.
  destruct (reapplied_adjustment hmi_store 1 _ _ _
              [("CUNIT2", Text "degree")] hmi_store_is_map) as [Hov Hcorr].
  split; [exact Hov|]. apply (Hcorr 1%R 1%R); reflexivity.
Defined.

(** C3 (as stated) fails for the correction of the script: on the sample
    header, with CDELT1 = 1, the map corrected twice holds CDELT1 = 1 again
    and differs from the map corrected once, which holds CDELT1 = -1. *)
Lemma correction_not_idempotent :
  ∃ σ1 σ2,
    HMI.correct_header 1 hmi_store = Done tt σ1 ∧
    HMI.correct_header 1 σ1 = Done tt σ2 ∧
    meta_of σ2 1 ≠ meta_of σ1 1.
Proof.
  destruct hmi_store_is_map as (dl & mt & ps & Hr & Hd & Hmt & Hps).
  destruct (correct_header_twice hmi_store 1 dl mt ps _ 1 1 Hr Hmt)
    as (σ1 & σ2 & H1 & H2 & M1 & M2); [reflexivity..|].
  exists σ1, σ2. repeat split; [done..|].
  rewrite M1, M2. intros Heq. apply (inj Some) in Heq.
  apply (f_equal (λ m : gmap string Scalar, m !! "CDELT1")) in Heq.
  rewrite !lookup_insert_eq in Heq. injection Heq as Heq.
  simpl in Heq. lra.
Qed.

(** ** Adjustments happen in place *)

Lemma block_app (l1 l2 : list (py unit)) (σ : gmap loc obj) :
  block (l1 ++ l2) σ =
    match block l1 σ with
    | Done _ σ' => block l2 σ'
    | Raised e σ' => Raised e σ'
    end.
Proof.
  revert σ. induction l1 as [|s l1 IH]; intros σ; [done|].
  rewrite <- app_comm_cons, !block_cons. by destruct (s σ).
Qed.

Lemma settings_setitem_run (σ : gmap loc obj) (r d mt ps : loc)
    (s : gmap string setting) (k : string) (v : setting) :
  σ !! r = Some (GenericMap d mt ps) →
  σ !! ps = Some (PlotSettings s) →
  (p ← attr_plot_settings r; settings_setitem p k v) σ =
    Done tt (<[ps := PlotSettings (<[k := v]> s)]> σ).
Proof. intros Hr Hps. py_unfold. by rewrite Hr, Hps. Qed.

Ltac ne := first [assumption | apply not_eq_sym; assumption].

Lemma fresh_ne (σ : gmap loc obj) (l : loc) (o : obj) :
  σ !! l = Some o → l ≠ fresh (dom σ).
Proof.
  intros Hl ->. apply (elem_of_dom_2 (D := gset loc)) in Hl.
  by apply is_fresh in Hl.
Qed.

Lemma dom_written (σ : gmap loc obj) (l : loc) (o new : obj) :
  σ !! l = Some o → dom (<[l := new]> σ) = dom σ.
Proof. intros Hl. apply dom_insert_lookup_L. by rewrite Hl. Qed.

Lemma set_cmap_run (σ : gmap loc obj) (r d mt ps : loc)
    (s : gmap string setting) :
  σ !! r = Some (GenericMap d mt ps) →
  σ !! ps = Some (PlotSettings s) →
  HMI.set_cmap r σ =
    Done tt (<[ps := PlotSettings (<["cmap" := Cmap "hmimag"]> s)]> σ).
Proof. intros Hr Hps. unfold HMI.set_cmap. by eapply settings_setitem_run. Qed.

(** The call of [plt.Normalize] comes first and creates its object; the
    entry that is written refers to it. *)
Lemma set_norm_run (σ : gmap loc obj) (r d mt ps : loc)
    (s : gmap string setting) :
  σ !! r = Some (GenericMap d mt ps) →
  σ !! ps = Some (PlotSettings s) →
  HMI.set_norm r σ =
    Done tt (<[ps := PlotSettings (<["norm" := Norm (fresh (dom σ))]> s)]>
             (<[fresh (dom σ) := Normalize (-1500) 1500]> σ)).
Proof.
  intros Hr Hps. unfold HMI.set_norm.
  transitivity
    ((p ← attr_plot_settings r;
      settings_setitem p "norm" (Norm (fresh (dom σ))))
       (<[fresh (dom σ) := Normalize (-1500) 1500]> σ)); [reflexivity|].
  eapply settings_setitem_run; by apply lookup_alloc_old.
Qed.

Lemma plot_settings_run (σ : gmap loc obj) (r d mt ps : loc)
    (s : gmap string setting) :
  σ !! r = Some (GenericMap d mt ps) →
  σ !! ps = Some (PlotSettings s) →
  block [HMI.set_cmap r; HMI.set_norm r] σ =
    Done tt (<[ps := PlotSettings
                 (<["norm" := Norm (fresh (dom σ))]>
                  (<["cmap" := Cmap "hmimag"]> s))]>
             (<[fresh (dom σ) := Normalize (-1500) 1500]> σ)).
Proof.
  intros Hr Hps.
  rewrite block_cons, (set_cmap_run σ r d mt ps s Hr Hps), block_cons.
  erewrite (set_norm_run _ r d mt ps);
    [|by eapply lookup_other_kind|apply lookup_insert_eq].
  rewrite block_nil, (dom_written σ ps _ _ Hps).
  rewrite (insert_insert_ne σ (fresh (dom σ)) ps)
    by (symmetry; by eapply fresh_ne).
  by rewrite insert_insert_eq.
Qed.

Lemma adjust_map_run (σ : gmap loc obj) (r dl mt ps : loc)
    (a : list (list R)) (m : gmap string Scalar) (s : gmap string setting)
    (d c : R) :
  σ !! r = Some (GenericMap dl mt ps) →
  σ !! dl = Some (Ndarray a) →
  σ !! mt = Some (MetaDict m) →
  σ !! ps = Some (PlotSettings s) →
  m !! "CDELT2" = Some (Number d) →
  m !! "CDELT1" = Some (Number c) →
  let nl := fresh (dom σ) in
  let m' := <["CDELT1" := Number (- c)%R]>
            (<["CDELT2" := Number (180 / PI * d)%R]>
             (<["CUNIT2" := Text "degree"]> m)) in
  let s' := <["norm" := Norm nl]> (<["cmap" := Cmap "hmimag"]> s) in
  let σ' := <[ps := PlotSettings s']>
            (<[nl := Normalize (-1500) 1500]> (<[mt := MetaDict m']> σ)) in
  HMI.adjust_map r σ = Done tt σ' ∧
  σ' !! r = Some (GenericMap dl mt ps) ∧
  data_of σ' r = Some a ∧
  meta_of σ' r = Some m' ∧
  settings_of σ' r = Some s' ∧
  (nl ∉ dom σ) ∧
  σ' !! nl = Some (Normalize (-1500) 1500) ∧
  dom σ' = {[nl]} ∪ dom σ.
Proof.
  intros Hr Hd Hmt Hps Hx Hc nl m' s' σ'.
  assert (r ≠ mt ∧ r ≠ ps ∧ dl ≠ mt ∧ dl ≠ ps ∧ mt ≠ ps)
    as (N1 & N2 & N3 & N4 & N5) by (repeat split; intros ->; congruence).
  assert (r ≠ nl ∧ dl ≠ nl ∧ mt ≠ nl ∧ ps ≠ nl)
    as (F1 & F2 & F3 & F4) by (repeat split; by eapply fresh_ne).
  assert (Hr2 : σ' !! r = Some (GenericMap dl mt ps))
    by (subst σ'; by do 3 (rewrite lookup_insert_ne by ne)).
  split; [|split; [exact Hr2|]].
  - unfold HMI.adjust_map. rewrite block_app.
    fold (HMI.correct_header r).
    rewrite (correct_header_run σ r dl mt ps m d c Hr Hmt Hx Hc).
    erewrite (plot_settings_run _ r dl mt ps s);
      [|by rewrite lookup_insert_ne by ne..].
    rewrite (dom_written σ mt _ _ Hmt).
    subst σ' s' m' nl. do 7 f_equal. simpl. lra.
  - unfold data_of, meta_of, settings_of. rewrite Hr2. subst σ'.
    repeat split.
    + by do 3 (rewrite lookup_insert_ne by ne); rewrite Hd.
    + by do 2 (rewrite lookup_insert_ne by ne); rewrite lookup_insert_eq.
    + by rewrite lookup_insert_eq.
    + apply is_fresh.
    + by rewrite lookup_insert_ne by ne; rewrite lookup_insert_eq.
    + rewrite (dom_insert_lookup_L _ ps)
        by (by do 2 (rewrite lookup_insert_ne by ne); rewrite Hps).
      by rewrite dom_insert_L, (dom_written σ mt _ _ Hmt).
Qed.

(** C4 (as amended): the adjustments of the script are made in place.  The
    run writes the corrected entries into the metadata mapping the map
    already holds and 'cmap' and 'norm' into its plot settings; the map
    object still refers to the same array, mapping and settings objects,
    and the array is as it was.  No map is created: the one new object is
    the normalisation that line 51 constructs. *)
Theorem adjust_in_place (σ : gmap loc obj) (r : loc)
    (a : list (list R)) (m : gmap string Scalar) (s : gmap string setting)
    (d c : R) :
  is_map σ r a m s →
  m !! "CDELT2" = Some (Number d) →
  m !! "CDELT1" = Some (Number c) →
  ∃ dl mt ps nl σ',
    σ !! r = Some (GenericMap dl mt ps) ∧
    HMI.adjust_map r σ = Done tt σ' ∧
    σ' !! r = Some (GenericMap dl mt ps) ∧
    data_of σ' r = Some a ∧
    meta_of σ' r =
      Some (<["CDELT1" := Number (- c)%R]>
            (<["CDELT2" := Number (180 / PI * d)%R]>
             (<["CUNIT2" := Text "degree"]> m))) ∧
    settings_of σ' r =
      Some (<["norm" := Norm nl]> (<["cmap" := Cmap "hmimag"]> s)) ∧
    (nl ∉ dom σ) ∧
    σ' !! nl = Some (Normalize (-1500) 1500) ∧
    dom σ' = {[nl]} ∪ dom σ.
Proof.
  intros (dl & mt & ps & Hr & Hd & Hmt & Hps) Hx Hc.
  exists dl, mt, ps. eexists _, _. split; [done|].
  apply (adjust_map_run σ r dl mt ps a m s d c Hr Hd Hmt Hps Hx Hc).
Qed.

Lemma adjust_in_place_witness :
  ∃ dl mt ps nl σ',
    hmi_store !! 1%positive = Some (GenericMap dl mt ps) ∧
    HMI.adjust_map 1 hmi_store = Done tt σ' ∧
    σ' !! 1%positive = Some (GenericMap dl mt ps) ∧
    data_of σ' 1 = Some [[0; 0]; [0; 0]]%R ∧
    meta_of σ' 1 =
      Some (<["CDELT1" := Number (- 1)%R]>
            (<["CDELT2" := Number (180 / PI * 1)%R]>
             (<["CUNIT2" := Text "degree"]>
              {[ "CUNIT2" := Text "Sine Latitude"; "CDELT2" := Number 1;
                 "CDELT1" := Number 1 ]}))) ∧
    settings_of σ' 1 =
      Some (<["norm" := Norm nl]> (<["cmap" := Cmap "hmimag"]> ∅)) ∧
    (nl ∉ dom hmi_store) ∧
    σ' !! nl = Some (Normalize (-1500) 1500) ∧
    dom σ' = {[nl]} ∪ dom hmi_store.
Proof.
  apply (adjust_in_place hmi_store 1 _ _ _ 1 1 hmi_store_is_map);
    reflexivity.
Defined.

(** C4 (as stated) fails: after the run the map at location 1 is the
    object it was, no other map having taken its place, and the metadata
    mapping it holds is no longer the one it held. *)
Lemma adjust_modifies_original :
  ∃ σ',
    HMI.adjust_map 1 hmi_store = Done tt σ' ∧
    σ' !! 1%positive = hmi_store !! 1%positive ∧
    meta_of σ' 1 ≠ meta_of hmi_store 1.
Proof.
  destruct (adjust_map_run hmi_store 1 2 3 4 [[0; 0]; [0; 0]]%R
              {[ "CUNIT2" := Text "Sine Latitude"; "CDELT2" := Number 1;
                 "CDELT1" := Number 1 ]} ∅ 1 1)
    as (Hrun & Hsame & _ & Hm & _); [reflexivity..|].
  eexists. split; [exact Hrun|]. split; [exact Hsame|].
  rewrite Hm.
  change (meta_of hmi_store 1) with
    (Some ({[ "CUNIT2" := Text "Sine Latitude"; "CDELT2" := Number 1;
              "CDELT1" := Number 1 ]} : gmap string Scalar)).
  intros Heq. apply (inj Some) in Heq.
  apply (f_equal (λ m : gmap string Scalar, m !! "CUNIT2")) in Heq.
  rewrite lookup_insert_ne, lookup_insert_ne, lookup_insert_eq in Heq by done.
  discriminate Heq.
Qed.

(** ** Arrays *)

Section arrays.
Import Ndimage.

Lemma tabulate_lookup (n m i : nat) (f : nat → nat → R) :
  tabulate (n, m) f !! i =
    if decide (i < n) then Some (f i <$> seq 0 m) else None.
Proof.
  unfold tabulate. simpl. rewrite list_lookup_fmap.
  case_decide.
  - by rewrite lookup_seq_lt.
  - by rewrite lookup_seq_ge by lia.
Qed.

Lemma row_lookup (m j : nat) (g : nat → R) (c : R) :
  default c ((g <$> seq 0 m) !! j) = if decide (j < m) then g j else c.
Proof.
  rewrite list_lookup_fmap. case_decide.
  - by rewrite lookup_seq_lt.
  - by rewrite lookup_seq_ge by lia.
Qed.

(** Reading a tabulated array: the tabulated value inside, the constant
    outside. *)
Lemma pixel_tabulate (c : R) (n m : nat) (f : nat → nat → R) (i j : Z) :
  pixel c (tabulate (n, m) f) i j =
    if decide (0 ≤ i < Z.of_nat n ∧ 0 ≤ j < Z.of_nat m)%Z
    then f (Z.to_nat i) (Z.to_nat j) else c.
Proof.
  unfold pixel. rewrite tabulate_lookup.
  repeat case_decide; try rewrite row_lookup; repeat case_decide;
    try done; try lia.
Qed.

Lemma shape_tabulate (a : list (list R)) (f : nat → nat → R) :
  shape (tabulate (shape a) f) = shape a.
Proof.
  destruct a as [|row a]; [done|].
  unfold shape, tabulate. simpl. by rewrite !length_fmap, !length_seq.
Qed.


Lemma zip_with_fmap_same {A B C D : Type} (h : B → C → D) (f : A → B)
    (g : A → C) (l : list A) :
  zip_with h (f <$> l) (g <$> l) = (λ x, h (f x) (g x)) <$> l.
Proof. induction l as [|x l IH]; [done|]. csimpl. by rewrite IH. Qed.

Lemma hypot_arr_tabulate (sh : nat * nat) (f g : nat → nat → R) :
  hypot_arr (tabulate sh f) (tabulate sh g) =
    tabulate sh (λ i j, hypot (f i j) (g i j)).
Proof.
  unfold hypot_arr, tabulate.
  rewrite (zip_with_fmap_same (zip_with hypot)
             (λ i, f i <$> seq 0 sh.2) (λ i, g i <$> seq 0 sh.2)).
  apply list_fmap_ext. intros _ i _. apply zip_with_fmap_same.
Qed.

(** A correlation with three weights reads the sample and its two
    neighbours. *)
Lemma correlate_at_3 (w0 w1 w2 : R) (line : Z → R) (l : Z) :
  correlate_at [w0; w1; w2] line l =
    (w0 * line (l - 1)%Z + w1 * line l + w2 * line (l + 1)%Z)%R.
Proof.
  unfold correlate_at. simpl.
  change (Z.of_nat 3 `div` 2)%Z with 1%Z.
  replace (l + Z.of_nat 0 - 1)%Z with (l - 1)%Z by lia.
  replace (l + Z.of_nat 1 - 1)%Z with l by lia.
  replace (l + Z.of_nat 2 - 1)%Z with (l + 1)%Z by lia.
  lra.
Qed.
End arrays.

Section sobel_pixels.
Import Ndimage.

Lemma shape_correlate1d (w : list R) (ax : axis) (c : R) (a : list (list R)) :
  shape (correlate1d w ax c a) = shape a.
Proof. apply shape_tabulate. Qed.

Lemma pixel_correlate1d (w : list R) (ax : axis) (c : R) (a : list (list R))
    (i j : Z) :
  pixel c (correlate1d w ax c a) i j =
    if decide (0 ≤ i < Z.of_nat (shape a).1 ∧ 0 ≤ j < Z.of_nat (shape a).2)%Z
    then match ax with
         | Axis0 => correlate_at w (λ t, pixel c a t j) i
         | Axis1 => correlate_at w (λ t, pixel c a i t) j
         end
    else c.
Proof.
  unfold correlate1d. destruct (shape a) as [n m]. rewrite pixel_tabulate.
  simpl. case_decide; [|done].
  by rewrite !Z2Nat.id by lia.
Qed.

(** Outside its rows, and in a rectangular array outside its columns, the
    extended array reads the constant. *)
Lemma pixel_outside_rows (c : R) (a : list (list R)) (i j : Z) :
  ¬ (0 ≤ i < Z.of_nat (length a))%Z → pixel c a i j = c.
Proof.
  intros Hi. unfold pixel. case_decide; [|done].
  by rewrite lookup_ge_None_2 by lia.
Qed.

Lemma pixel_outside_columns (c : R) (m : nat) (a : list (list R)) (i j : Z) :
  rectangular m a → ¬ (0 ≤ j < Z.of_nat m)%Z → pixel c a i j = c.
Proof.
  intros Hrect Hj. unfold pixel. case_decide; [|done].
  destruct (a !! Z.to_nat i) as [row|] eqn:Hrow; [|done].
  assert (length row = m) as Hlen.
  { unfold rectangular in Hrect. rewrite Forall_lookup in Hrect. by eapply Hrect. }
  by rewrite lookup_ge_None_2 by lia.
Qed.

(** What the two passes of [sobel] compute at a pixel of a rectangular
    array: the 3x3 Sobel response over the zero-extended neighbourhood. *)
Lemma pixel_sobel (a : list (list R)) (ax : axis) (i j : Z) :
  rectangular (shape a).2 a →
  (0 ≤ i < Z.of_nat (shape a).1)%Z →
  (0 ≤ j < Z.of_nat (shape a).2)%Z →
  pixel 0 (sobel a ax) i j = sobel_kernel a ax i j.
Proof.
  intros Hrect Hi Hj. unfold sobel.
  rewrite pixel_correlate1d, shape_correlate1d, decide_True by done.
  assert (Hcols : ∀ i' j', ¬ (0 ≤ j' < Z.of_nat (shape a).2)%Z →
                           pixel 0 a i' j' = 0%R)
    by (intros; by eapply pixel_outside_columns).
  assert (Hrows : ∀ i' j', ¬ (0 ≤ i' < Z.of_nat (shape a).1)%Z →
                           pixel 0 a i' j' = 0%R)
    by (intros; by eapply pixel_outside_rows).
  destruct ax; simpl other_axis; cbv iota; rewrite correlate_at_3;
    rewrite !pixel_correlate1d; unfold sobel_kernel;
    repeat case_decide; rewrite ?correlate_at_3;
    try rewrite !(Hcols _ (j + 1)%Z) by lia;
    try rewrite !(Hcols _ (j - 1)%Z) by lia;
    try rewrite !(Hrows (i + 1)%Z) by lia;
    try rewrite !(Hrows (i - 1)%Z) by lia;
    try lra; lia.
Qed.
End sobel_pixels.

Section closed_forms.
Import Ndimage.

Lemma tabulate_ext (sh : nat * nat) (f g : nat → nat → R) :
  (∀ i j, i < sh.1 → j < sh.2 → f i j = g i j) →
  tabulate sh f = tabulate sh g.
Proof.
  intros Hfg. unfold tabulate.
  apply list_fmap_ext. intros ? i [-> Hi]%lookup_seq.
  apply list_fmap_ext. intros ? j [-> Hj]%lookup_seq.
  by apply Hfg.
Qed.

Lemma Forall_tabulate (P : R → Prop) (sh : nat * nat) (f : nat → nat → R) :
  (∀ i j, i < sh.1 → j < sh.2 → P (f i j)) →
  Forall (Forall P) (tabulate sh f).
Proof.
  intros HP. unfold tabulate.
  apply Forall_fmap, Forall_forall. intros i [_ Hi]%elem_of_seq.
  apply Forall_fmap, Forall_forall. intros j [_ Hj]%elem_of_seq.
  apply HP; simpl in *; lia.
Qed.

(** An array that was tabulated is the table of its own pixels. *)
Lemma tabulate_pixels (c : R) (sh : nat * nat) (f : nat → nat → R) :
  tabulate sh f =
    tabulate sh (λ i j, pixel c (tabulate sh f) (Z.of_nat i) (Z.of_nat j)).
Proof.
  apply tabulate_ext. intros i j Hi Hj. destruct sh as [n m].
  rewrite pixel_tabulate, decide_True by (simpl in *; lia).
  by rewrite !Nat2Z.id.
Qed.

(** The two correlation passes of [sobel] on a rectangular array give the
    table of the 3x3 Sobel responses. *)
Lemma sobel_closed_form (a : list (list R)) (ax : axis) :
  rectangular (shape a).2 a →
  sobel a ax =
    tabulate (shape a) (λ i j, sobel_kernel a ax (Z.of_nat i) (Z.of_nat j)).
Proof.
  intros Hrect.
  assert (∃ f, sobel a ax = tabulate (shape a) f) as [f Hf].
  { unfold sobel. unfold correlate1d at 1. rewrite shape_correlate1d. eauto. }
  rewrite Hf, (tabulate_pixels 0), <- Hf.
  apply tabulate_ext. intros i j Hi Hj.
  apply pixel_sobel; [done|lia..].
Qed.

Lemma edge_enhance_closed_form (a : list (list R)) :
  rectangular (shape a).2 a →
  edge_enhance a =
    tabulate (shape a) (λ i j,
      hypot (sobel_kernel a Axis0 (Z.of_nat i) (Z.of_nat j))
            (sobel_kernel a Axis1 (Z.of_nat i) (Z.of_nat j))).
Proof.
  intros Hrect. unfold edge_enhance.
  rewrite !sobel_closed_form by done. apply hypot_arr_tabulate.
Qed.

(** Without any assumption on the rows, the result is still a table over
    the shape of the input. *)
Lemma edge_enhance_tabulate (a : list (list R)) :
  ∃ f g, edge_enhance a = tabulate (shape a) (λ i j, hypot (f i j) (g i j)).
Proof.
  unfold edge_enhance, sobel. unfold correlate1d at 1 3.
  rewrite !shape_correlate1d, hypot_arr_tabulate. eauto.
Qed.


Lemma hypot_0_0 : hypot 0 0 = 0%R.
Proof.
  unfold hypot. replace (0 * 0 + 0 * 0)%R with 0%R by lra. apply sqrt_0.
Qed.

Lemma hypot_comm (x y : R) : hypot x y = hypot y x.
Proof. unfold hypot. f_equal. lra. Qed.
End closed_forms.

(** ** Running the edge-enhancement script *)

Ltac solve_lookup :=
  first [ apply lookup_insert_eq
        | eassumption
        | apply lookup_alloc_old; solve_lookup ].

Ltac edge_unfold :=
  unfold Edge.script, Edge.script_swapped, Edge.ndimage_sobel, Edge.np_hypot,
    Edge.Map, alloc; py_unfold.

Lemma script_run (defaults : gmap string setting) (σ : gmap loc obj)
    (r d mt ps : loc) (a : list (list R)) (m : gmap string Scalar) :
  σ !! r = Some (GenericMap d mt ps) →
  σ !! d = Some (Ndarray a) →
  σ !! mt = Some (MetaDict m) →
  let σ1 := <[fresh (dom σ) := Ndarray (Ndimage.sobel a Axis0)]> σ in
  let σ2 := <[fresh (dom σ1) := Ndarray (Ndimage.sobel a Axis1)]> σ1 in
  let σ3 := <[fresh (dom σ2) := Ndarray (Ndimage.edge_enhance a)]> σ2 in
  let σ4 := <[fresh (dom σ3) := MetaDict m]> σ3 in
  let σ5 := <[fresh (dom σ4) := PlotSettings defaults]> σ4 in
  let σ6 := <[fresh (dom σ5) :=
                GenericMap (fresh (dom σ2)) (fresh (dom σ3)) (fresh (dom σ4))]> σ5 in
  Edge.script defaults r σ =
    Done {| Edge.sx := fresh (dom σ); Edge.sy := fresh (dom σ1);
            Edge.edge_enhanced_im := fresh (dom σ2);
            Edge.edge_map := fresh (dom σ5) |} σ6.
Proof.
  intros Hr Hd Hmt σ1 σ2 σ3 σ4 σ5 σ6. edge_unfold.
  rewrite Hr, Hd. fold σ1.
  assert (σ1 !! r = Some (GenericMap d mt ps)) as -> by (subst σ1; solve_lookup).
  assert (σ1 !! d = Some (Ndarray a)) as -> by (subst σ1; solve_lookup).
  fold σ2.
  assert (σ2 !! fresh (dom σ) = Some (Ndarray (Ndimage.sobel a Axis0))) as ->
    by (subst σ2 σ1; solve_lookup).
  assert (σ2 !! fresh (dom σ1) = Some (Ndarray (Ndimage.sobel a Axis1))) as ->
    by (subst σ2; solve_lookup).
  fold (Ndimage.edge_enhance a). fold σ3.
  assert (σ3 !! r = Some (GenericMap d mt ps)) as ->
    by (subst σ3 σ2 σ1; solve_lookup).
  assert (σ3 !! fresh (dom σ2) = Some (Ndarray (Ndimage.edge_enhance a))) as ->
    by (subst σ3; solve_lookup).
  assert (σ3 !! mt = Some (MetaDict m)) as ->
    by (subst σ3 σ2 σ1; solve_lookup).
  reflexivity.
Qed.

Lemma script_swapped_run (defaults : gmap string setting) (σ : gmap loc obj)
    (r d mt ps : loc) (a : list (list R)) (m : gmap string Scalar) :
  σ !! r = Some (GenericMap d mt ps) →
  σ !! d = Some (Ndarray a) →
  σ !! mt = Some (MetaDict m) →
  let σ1 := <[fresh (dom σ) := Ndarray (Ndimage.sobel a Axis1)]> σ in
  let σ2 := <[fresh (dom σ1) := Ndarray (Ndimage.sobel a Axis0)]> σ1 in
  let σ3 := <[fresh (dom σ2) :=
                Ndarray (Ndimage.hypot_arr (Ndimage.sobel a Axis1)
                                           (Ndimage.sobel a Axis0))]> σ2 in
  let σ4 := <[fresh (dom σ3) := MetaDict m]> σ3 in
  let σ5 := <[fresh (dom σ4) := PlotSettings defaults]> σ4 in
  let σ6 := <[fresh (dom σ5) :=
                GenericMap (fresh (dom σ2)) (fresh (dom σ3)) (fresh (dom σ4))]> σ5 in
  Edge.script_swapped defaults r σ =
    Done {| Edge.sx := fresh (dom σ1); Edge.sy := fresh (dom σ);
            Edge.edge_enhanced_im := fresh (dom σ2);
            Edge.edge_map := fresh (dom σ5) |} σ6.
Proof.
  intros Hr Hd Hmt σ1 σ2 σ3 σ4 σ5 σ6. edge_unfold.
  rewrite Hr, Hd. fold σ1.
  assert (σ1 !! r = Some (GenericMap d mt ps)) as -> by (subst σ1; solve_lookup).
  assert (σ1 !! d = Some (Ndarray a)) as -> by (subst σ1; solve_lookup).
  fold σ2.
  assert (σ2 !! fresh (dom σ) = Some (Ndarray (Ndimage.sobel a Axis1))) as ->
    by (subst σ2 σ1; solve_lookup).
  assert (σ2 !! fresh (dom σ1) = Some (Ndarray (Ndimage.sobel a Axis0))) as ->
    by (subst σ2; solve_lookup).
  fold σ3.
  assert (σ3 !! r = Some (GenericMap d mt ps)) as ->
    by (subst σ3 σ2 σ1; solve_lookup).
  assert (σ3 !! fresh (dom σ2) =
            Some (Ndarray (Ndimage.hypot_arr (Ndimage.sobel a Axis1)
                                             (Ndimage.sobel a Axis0)))) as ->
    by (subst σ3; solve_lookup).
  assert (σ3 !! mt = Some (MetaDict m)) as ->
    by (subst σ3 σ2 σ1; solve_lookup).
  reflexivity.
Qed.

(** What both orders of the script leave behind: the store only grows, the
    variables name new objects, and the new map holds the result array,
    a mapping with the entries of the header and the default settings. *)
Lemma built_map (σ : gmap loc obj) (o1 o2 : obj) (e : list (list R))
    (m : gmap string Scalar) (defaults : gmap string setting) :
  let σ1 := <[fresh (dom σ) := o1]> σ in
  let σ2 := <[fresh (dom σ1) := o2]> σ1 in
  let σ3 := <[fresh (dom σ2) := Ndarray e]> σ2 in
  let σ4 := <[fresh (dom σ3) := MetaDict m]> σ3 in
  let σ5 := <[fresh (dom σ4) := PlotSettings defaults]> σ4 in
  let σ6 := <[fresh (dom σ5) :=
                GenericMap (fresh (dom σ2)) (fresh (dom σ3)) (fresh (dom σ4))]> σ5 in
  σ ⊆ σ6 ∧
  (fresh (dom σ) ∉ dom σ) ∧ (fresh (dom σ1) ∉ dom σ) ∧
  (fresh (dom σ2) ∉ dom σ) ∧ (fresh (dom σ5) ∉ dom σ) ∧
  σ6 !! fresh (dom σ) = Some o1 ∧
  σ6 !! fresh (dom σ1) = Some o2 ∧
  is_map σ6 (fresh (dom σ5)) e m defaults.
Proof.
  intros σ1 σ2 σ3 σ4 σ5 σ6.
  assert (σ ⊆ σ1) as H1 by apply alloc_subseteq.
  assert (σ1 ⊆ σ2) as H2 by apply alloc_subseteq.
  assert (σ2 ⊆ σ3) as H3 by apply alloc_subseteq.
  assert (σ3 ⊆ σ4) as H4 by apply alloc_subseteq.
  assert (σ4 ⊆ σ5) as H5 by apply alloc_subseteq.
  assert (σ5 ⊆ σ6) as H6 by apply alloc_subseteq.
  assert (∀ (s s' : gmap loc obj), s ⊆ s' → fresh (dom s') ∉ dom s) as Hfresh.
  { intros s s' Hs Hin. apply (subseteq_dom (D := gset loc)) in Hs.
    apply (is_fresh (dom s')). by apply Hs. }
  split; [by do 5 (etrans; [eassumption|])|].
  split; [apply is_fresh|].
  split; [by apply Hfresh|].
  split; [apply Hfresh; by etrans|].
  split; [apply Hfresh; by do 4 (etrans; [eassumption|])|].
  split; [subst σ6 σ5 σ4 σ3 σ2 σ1; solve_lookup|].
  split; [subst σ6 σ5 σ4 σ3 σ2; solve_lookup|].
  exists (fresh (dom σ2)), (fresh (dom σ3)), (fresh (dom σ4)).
  split; [subst σ6; solve_lookup|].
  split; [subst σ6 σ5 σ4 σ3; solve_lookup|].
  split; [subst σ6 σ5 σ4; solve_lookup|].
  subst σ6 σ5; solve_lookup.
Qed.

Lemma aia_store_is_map :
  is_map aia_store 1 ones3
    {[ "CUNIT1" := Text "arcsec"; "CDELT1" := Number 2 ]} ∅.
Proof. exists 2%positive, 3%positive, 4%positive. repeat split; reflexivity. Defined.

(** ** The edge-enhanced array *)


(** *** With NaN pixels *)

Section nan_samples.













End nan_samples.

Lemma zip_with_comm {A B : Type} (f : A → A → B) (l k : list A) :
  (∀ x y, f x y = f y x) → zip_with f l k = zip_with f k l.
Proof.
  intros Hf. revert k. induction l as [|x l IH]; intros [|y k]; try done.
  simpl. by rewrite Hf, IH.
Qed.

Lemma hypot_arr_comm (x y : list (list R)) :
  Ndimage.hypot_arr x y = Ndimage.hypot_arr y x.
Proof.
  unfold Ndimage.hypot_arr. apply zip_with_comm.
  intros r1 r2. apply zip_with_comm, hypot_comm.
Qed.

(** C10: combining the axis-1 derivative with the axis-0 derivative gives
    the array that combining them in the order of the script gives; and the
    script run with its two filter passes exchanged builds a map holding
    that same array. *)
Theorem pass_order_irrelevant (a : list (list R)) :
  Ndimage.hypot_arr (Ndimage.sobel a Axis1) (Ndimage.sobel a Axis0) =
    Ndimage.edge_enhance a ∧
  ∀ (defaults : gmap string setting) (σ : gmap loc obj) (r : loc)
    (m : gmap string Scalar) (s : gmap string setting),
    is_map σ r a m s →
    ∃ v v' σ1 σ2,
      Edge.script defaults r σ = Done v σ1 ∧
      Edge.script_swapped defaults r σ = Done v' σ2 ∧
      data_of σ1 (Edge.edge_map v) = Some (Ndimage.edge_enhance a) ∧
      data_of σ2 (Edge.edge_map v') = Some (Ndimage.edge_enhance a).
Proof.
  split; [apply hypot_arr_comm|].
  intros defaults σ r m s (d & mt & ps & Hr & Hd & Hmt & Hps).
  eexists _, _, _, _.
  split; [by eapply script_run|].
  split; [by eapply script_swapped_run|].
  assert (∀ σ' em e m' s', is_map σ' em e m' s' → data_of σ' em = Some e)
    as Hdata.
  { intros σ' em e m' s' (d' & mt' & ps' & Hem & Hd' & _).
    unfold data_of. by rewrite Hem, Hd'. }
  simpl. split.
  - eapply Hdata, built_map.
  - rewrite <- (hypot_arr_comm (Ndimage.sobel a Axis0)).
    eapply Hdata, built_map.
Qed.

Lemma pass_order_irrelevant_witness :
  Ndimage.hypot_arr (Ndimage.sobel ones3 Axis1) (Ndimage.sobel ones3 Axis0) =
    Ndimage.edge_enhance ones3 ∧
  ∃ v v' σ1 σ2,
    Edge.script ∅ 1 aia_store = Done v σ1 ∧
    Edge.script_swapped ∅ 1 aia_store = Done v' σ2 ∧
    data_of σ1 (Edge.edge_map v) = Some (Ndimage.edge_enhance ones3) ∧
    data_of σ2 (Edge.edge_map v') = Some (Ndimage.edge_enhance ones3).
Proof.
  split.
  - apply (pass_order_irrelevant ones3).
  - apply (proj2 (pass_order_irrelevant ones3) ∅ aia_store 1%positive _ _
             aia_store_is_map).
Defined.

(** ** Constant-valued input *)

Section constant_input.
Import Ndimage.

Lemma pixel_constant (v : R) (a : list (list R)) (i j : Z) :
  rectangular (shape a).2 a →
  constant_valued v a →
  (0 ≤ i < Z.of_nat (shape a).1)%Z →
  (0 ≤ j < Z.of_nat (shape a).2)%Z →
  pixel 0 a i j = v.
Proof.
  intros Hrect Hconst Hi Hj. unfold pixel. rewrite decide_True by lia.
  destruct (lookup_lt_is_Some_2 a (Z.to_nat i)) as [row Hrow];
    [simpl in Hi; lia|].
  rewrite Hrow.
  assert (length row = (shape a).2) as Hlen.
  { unfold rectangular in Hrect. rewrite Forall_lookup in Hrect. by eapply Hrect. }
  destruct (lookup_lt_is_Some_2 row (Z.to_nat j)) as [x Hx]; [lia|].
  rewrite Hx. simpl.
  unfold constant_valued in Hconst. rewrite Forall_lookup in Hconst.
  specialize (Hconst _ _ Hrow). rewrite Forall_lookup in Hconst.
  by eapply Hconst.
Qed.

Lemma pixel_zero_array (a : list (list R)) (i j : Z) :
  constant_valued 0 a → pixel 0 a i j = 0%R.
Proof.
  intros Hconst. unfold pixel. case_decide; [|done].
  destruct (a !! Z.to_nat i) as [row|] eqn:Hrow; [|done].
  destruct (row !! Z.to_nat j) as [x|] eqn:Hx; [|done]. simpl.
  unfold constant_valued in Hconst. rewrite Forall_lookup in Hconst.
  specialize (Hconst _ _ Hrow). rewrite Forall_lookup in Hconst.
  by eapply Hconst.
Qed.

(** C2 (as amended): on a constant-valued array the edge-enhanced array is
    zero at every pixel that has its four neighbours inside the array, and
    at every pixel when the constant is zero. *)
Theorem constant_array_edges (v : R) (a : list (list R)) :
  rectangular (shape a).2 a →
  constant_valued v a →
  (∀ i j : Z,
     (1 ≤ i ∧ i + 1 < Z.of_nat (shape a).1)%Z →
     (1 ≤ j ∧ j + 1 < Z.of_nat (shape a).2)%Z →
     pixel 0 (edge_enhance a) i j = 0%R) ∧
  (v = 0%R → Forall (Forall (λ x, x = 0%R)) (edge_enhance a)).
Proof.
  intros Hrect Hconst. rewrite edge_enhance_closed_form by done. split.
  - intros i j Hi Hj. destruct (shape a) as [n m] eqn:Hsh.
    rewrite pixel_tabulate, decide_True by (simpl in *; lia).
    rewrite !Z2Nat.id by lia.
    assert (∀ i' j', (0 ≤ i' < Z.of_nat n)%Z → (0 ≤ j' < Z.of_nat m)%Z →
                     pixel 0 a i' j' = v) as Hpix.
    { intros i' j' Hi' Hj'. apply pixel_constant; rewrite ?Hsh; done. }
    unfold sobel_kernel. simpl in Hi, Hj. rewrite !Hpix by lia.
    replace (v - v + 2 * (v - v) + (v - v))%R with 0%R by lra.
    apply hypot_0_0.
  - intros ->. apply Forall_tabulate. intros i j _ _.
    unfold sobel_kernel. rewrite !pixel_zero_array by done.
    replace (0 - 0 + 2 * (0 - 0) + (0 - 0))%R with 0%R by lra.
    apply hypot_0_0.
Qed.
End constant_input.

Lemma ones3_rectangular :
  Ndimage.rectangular (Ndimage.shape ones3).2 ones3.
Proof. repeat constructor. Defined.

Lemma ones3_constant : Ndimage.constant_valued 1 ones3.
Proof. repeat constructor. Defined.

Lemma constant_array_edges_witness :
  Ndimage.pixel 0 (Ndimage.edge_enhance ones3) 1 1 = 0%R.
Proof.
  apply (proj1 (constant_array_edges 1 ones3 ones3_rectangular ones3_constant));
    simpl; lia.
Defined.

(** C2 (as stated) fails on the border: the 2x2 array of ones is constant
    valued, and zero padding gives both Sobel responses the value 3 at its
    corner, so the edge-enhanced array is not zero there. *)
Lemma constant_array_border_response :
  Ndimage.rectangular 2 ones2 ∧
  Ndimage.constant_valued 1 ones2 ∧
  ¬ Forall (Forall (λ x, x = 0%R)) (Ndimage.edge_enhance ones2).
Proof.
  split; [repeat constructor|]. split; [repeat constructor|].
  rewrite edge_enhance_closed_form by repeat constructor.
  intros Hall. apply Forall_cons_1 in Hall as [Hrow _].
  apply Forall_cons_1 in Hrow as [H00 _]. revert H00.
  unfold Ndimage.sobel_kernel, Ndimage.pixel, ones2. simpl.
  unfold Ndimage.hypot. intros H00.
  apply sqrt_eq_0 in H00; lra.
Qed.

(** ** The new map and the input *)

Lemma is_map_data (σ : gmap loc obj) (r : loc) (a : list (list R))
    (m : gmap string Scalar) (s : gmap string setting) :
  is_map σ r a m s → data_of σ r = Some a.
Proof.
  intros (d & mt & ps & Hr & Hd & _). unfold data_of. by rewrite Hr, Hd.
Qed.

Lemma is_map_meta (σ : gmap loc obj) (r : loc) (a : list (list R))
    (m : gmap string Scalar) (s : gmap string setting) :
  is_map σ r a m s → meta_of σ r = Some m.
Proof.
  intros (d & mt & ps & Hr & _ & Hmt & _). unfold meta_of. by rewrite Hr, Hmt.
Qed.

Lemma is_map_weaken (σ σ' : gmap loc obj) (r : loc) (a : list (list R))
    (m : gmap string Scalar) (s : gmap string setting) :
  σ ⊆ σ' → is_map σ r a m s → is_map σ' r a m s.
Proof.
  intros Hsub (d & mt & ps & Hr & Hd & Hmt & Hps).
  exists d, mt, ps. repeat split; by eapply lookup_weaken.
Qed.

(** C9: the script leaves every object of the store it started from as it
    was, the data array of the submap among them; the arrays of the two
    passes and of their combination are new objects. *)
Theorem input_array_unmodified (defaults : gmap string setting)
    (σ : gmap loc obj) (r : loc) (a : list (list R))
    (m : gmap string Scalar) (s : gmap string setting) :
  is_map σ r a m s →
  ∃ v σ',
    Edge.script defaults r σ = Done v σ' ∧
    σ ⊆ σ' ∧
    data_of σ' r = Some a ∧
    (Edge.sx v ∉ dom σ) ∧ (Edge.sy v ∉ dom σ) ∧
    (Edge.edge_enhanced_im v ∉ dom σ).
Proof.
  intros Hmap. pose proof Hmap as (d & mt & ps & Hr & Hd & Hmt & Hps).
  eexists _, _. split; [by eapply script_run|].
  pose proof (built_map σ (Ndarray (Ndimage.sobel a Axis0))
                (Ndarray (Ndimage.sobel a Axis1)) (Ndimage.edge_enhance a)
                m defaults) as (Hsub & F1 & F2 & F3 & _).
  split; [done|]. split; [|done].
  eapply is_map_data, is_map_weaken; done.
Qed.

Lemma input_array_unmodified_witness :
  ∃ v σ',
    Edge.script ∅ 1 aia_store = Done v σ' ∧
    aia_store ⊆ σ' ∧
    data_of σ' 1 = Some ones3 ∧
    (Edge.sx v ∉ dom aia_store) ∧ (Edge.sy v ∉ dom aia_store) ∧
    (Edge.edge_enhanced_im v ∉ dom aia_store).
Proof.
  apply (input_array_unmodified ∅ aia_store 1 ones3 _ _ aia_store_is_map).
Defined.

(** C6: the script stores the Sobel response along axis 0 and along axis 1
    of the zero-extended input, combines them pixel by pixel as
    sqrt(gx² + gy²), and builds a new map that holds the combined array and
    a metadata mapping with exactly the entries of the submap's. *)
Theorem edge_map_construction (defaults : gmap string setting)
    (σ : gmap loc obj) (r : loc) (a : list (list R))
    (m : gmap string Scalar) (s : gmap string setting) :
  is_map σ r a m s →
  Ndimage.rectangular (Ndimage.shape a).2 a →
  ∃ v σ',
    Edge.script defaults r σ = Done v σ' ∧
    σ' !! Edge.sx v = Some (Ndarray (Ndimage.sobel a Axis0)) ∧
    σ' !! Edge.sy v = Some (Ndarray (Ndimage.sobel a Axis1)) ∧
    (∀ ax i j,
       (0 ≤ i < Z.of_nat (Ndimage.shape a).1)%Z →
       (0 ≤ j < Z.of_nat (Ndimage.shape a).2)%Z →
       Ndimage.pixel 0 (Ndimage.sobel a ax) i j = Ndimage.sobel_kernel a ax i j) ∧
    (∀ i j,
       (0 ≤ i < Z.of_nat (Ndimage.shape a).1)%Z →
       (0 ≤ j < Z.of_nat (Ndimage.shape a).2)%Z →
       Ndimage.pixel 0 (Ndimage.edge_enhance a) i j =
         sqrt (Ndimage.sobel_kernel a Axis0 i j * Ndimage.sobel_kernel a Axis0 i j
               + Ndimage.sobel_kernel a Axis1 i j * Ndimage.sobel_kernel a Axis1 i j)) ∧
    (Edge.edge_map v ∉ dom σ) ∧
    is_map σ' (Edge.edge_map v) (Ndimage.edge_enhance a) m defaults ∧
    meta_of σ' (Edge.edge_map v) = meta_of σ r.
Proof.
  intros Hmap Hrect. pose proof Hmap as (d & mt & ps & Hr & Hd & Hmt & Hps).
  eexists _, _. split; [by eapply script_run|].
  pose proof (built_map σ (Ndarray (Ndimage.sobel a Axis0))
                (Ndarray (Ndimage.sobel a Axis1)) (Ndimage.edge_enhance a)
                m defaults) as (Hsub & _ & _ & _ & F4 & Hx & Hy & Hnew).
  cbn [Edge.sx Edge.sy Edge.edge_map]. repeat split; try done.
  - intros ax i j Hi Hj. by apply pixel_sobel.
  - intros i j Hi Hj. rewrite edge_enhance_closed_form by done.
    destruct (Ndimage.shape a) as [n k].
    simpl in Hi, Hj.
    rewrite pixel_tabulate, decide_True by lia.
    by rewrite !Z2Nat.id by lia.
  - by rewrite (is_map_meta _ _ _ _ _ Hnew), (is_map_meta _ _ _ _ _ Hmap).
Qed.

Lemma edge_map_construction_witness :
  ∃ v σ',
    Edge.script ∅ 1 aia_store = Done v σ' ∧
    σ' !! Edge.sx v = Some (Ndarray (Ndimage.sobel ones3 Axis0)) ∧
    σ' !! Edge.sy v = Some (Ndarray (Ndimage.sobel ones3 Axis1)) ∧
    (∀ ax i j,
       (0 ≤ i < Z.of_nat (Ndimage.shape ones3).1)%Z →
       (0 ≤ j < Z.of_nat (Ndimage.shape ones3).2)%Z →
       Ndimage.pixel 0 (Ndimage.sobel ones3 ax) i j =
         Ndimage.sobel_kernel ones3 ax i j) ∧
    (∀ i j,
       (0 ≤ i < Z.of_nat (Ndimage.shape ones3).1)%Z →
       (0 ≤ j < Z.of_nat (Ndimage.shape ones3).2)%Z →
       Ndimage.pixel 0 (Ndimage.edge_enhance ones3) i j =
         sqrt (Ndimage.sobel_kernel ones3 Axis0 i j
               * Ndimage.sobel_kernel ones3 Axis0 i j
               + Ndimage.sobel_kernel ones3 Axis1 i j
                 * Ndimage.sobel_kernel ones3 Axis1 i j)) ∧
    (Edge.edge_map v ∉ dom aia_store) ∧
    is_map σ' (Edge.edge_map v) (Ndimage.edge_enhance ones3)
      {[ "CUNIT1" := Text "arcsec"; "CDELT1" := Number 2 ]} ∅ ∧
    meta_of σ' (Edge.edge_map v) = meta_of aia_store 1.
Proof.
  apply (edge_map_construction ∅ aia_store 1 ones3 _ _ aia_store_is_map
           ones3_rectangular).
Defined.

(** * Further properties of the scripts *)

Lemma store_with_is_map (m : gmap string Scalar) :
  is_map (store_with m) 1 [[0; 0]; [0; 0]]%R m ∅.
Proof. exists 2%positive, 3%positive, 4%positive. repeat split; reflexivity. Defined.

(** ** The prints before the correction *)

Section prints.
Context (str_of : Scalar → string).
Context (σ : gmap loc obj) (r d mt ps : loc) (m : gmap string Scalar).
Hypothesis Hr : σ !! r = Some (GenericMap d mt ps).
Hypothesis Hmt : σ !! mt = Some (MetaDict m).

Lemma print_meta_run (k : string) (out : list string) :
  print_meta str_of r k out σ =
    match m !! k with
    | Some v => Done (out ++ [str_of v]) σ
    | None => Raised (KeyError k) σ
    end.
Proof.
  unfold print_meta. py_unfold. rewrite Hr, Hmt.
  by destruct (m !! k).
Qed.

Lemma inspect_header_run (out : list string) :
  inspect_header str_of r out σ =
    match m !! "CUNIT2", m !! "CTYPE1", m !! "CTYPE2" with
    | None, _, _ => Raised (KeyError "CUNIT2") σ
    | Some _, None, _ => Raised (KeyError "CTYPE1") σ
    | Some _, Some _, None => Raised (KeyError "CTYPE2") σ
    | Some u, Some t1, Some t2 =>
        Done (out ++ [str_of u; str_of t1; str_of t2]) σ
    end.
Proof.
  unfold inspect_header.
  unfold mbind, py_bind, bind. rewrite print_meta_run.
  destruct (m !! "CUNIT2") as [u|]; [|done].
  rewrite print_meta_run.
  destruct (m !! "CTYPE1") as [t1|]; [|done].
  rewrite print_meta_run.
  destruct (m !! "CTYPE2") as [t2|]; [|done].
  by rewrite <- !(assoc_L (++)).
Qed.
End prints.

(** X1: on a map whose header has CUNIT2, CTYPE1 and CTYPE2, the three
    prints add the text of those three values to the output, in that order,
    and leave the store as it was. *)
Theorem inspect_header_reads_only (str_of : Scalar → string)
    (σ : gmap loc obj) (r : loc) (a : list (list R))
    (m : gmap string Scalar) (s : gmap string setting)
    (u t1 t2 : Scalar) (out : list string) :
  is_map σ r a m s →
  m !! "CUNIT2" = Some u →
  m !! "CTYPE1" = Some t1 →
  m !! "CTYPE2" = Some t2 →
  inspect_header str_of r out σ =
    Done (out ++ [str_of u; str_of t1; str_of t2]) σ.
Proof.
  intros (d & mt & ps & Hr & _ & Hmt & _) Hu H1 H2.
  rewrite (inspect_header_run str_of σ r d mt ps m Hr Hmt).
  by rewrite Hu, H1, H2.
Qed.

Lemma inspect_header_reads_only_witness :
  inspect_header sample_str 1 [] (store_with full_header) =
    Done ["Sine Latitude"; "CRLN-CEA"; "CRLT-CEA"] (store_with full_header).
Proof.
  apply (inspect_header_reads_only sample_str (store_with full_header) 1 _ _ _
           (Text "Sine Latitude") (Text "CRLN-CEA") (Text "CRLT-CEA") []
           (store_with_is_map full_header)); reflexivity.
Defined.

(** X2: when one of the three printed keys is missing, the prints stop with
    a KeyError for the first missing one in the order CUNIT2, CTYPE1,
    CTYPE2, and the store is as it was. *)
Theorem inspect_header_first_missing (str_of : Scalar → string)
    (σ : gmap loc obj) (r : loc) (a : list (list R))
    (m : gmap string Scalar) (s : gmap string setting) (out : list string) :
  is_map σ r a m s →
  (m !! "CUNIT2" = None →
   inspect_header str_of r out σ = Raised (KeyError "CUNIT2") σ) ∧
  (is_Some (m !! "CUNIT2") → m !! "CTYPE1" = None →
   inspect_header str_of r out σ = Raised (KeyError "CTYPE1") σ) ∧
  (is_Some (m !! "CUNIT2") → is_Some (m !! "CTYPE1") → m !! "CTYPE2" = None →
   inspect_header str_of r out σ = Raised (KeyError "CTYPE2") σ).
Proof.
  intros (d & mt & ps & Hr & _ & Hmt & _).
  rewrite (inspect_header_run str_of σ r d mt ps m Hr Hmt).
  repeat split.
  - by intros ->.
  - by intros [u ->] ->.
  - by intros [u ->] [t1 ->] ->.
Qed.

Lemma inspect_header_first_missing_witness :
  inspect_header sample_str 1 [] hmi_store = Raised (KeyError "CTYPE1") hmi_store.
Proof.
  apply (inspect_header_first_missing sample_str hmi_store 1 _ _ _ []
           hmi_store_is_map); [eexists|]; reflexivity.
Defined.

(** X3: the prints come before the correction: on a complete header the
    output shows the value CUNIT2 had, and the map holds 'degree' and the
    corrected step sizes afterwards. *)
Theorem prints_precede_correction (str_of : Scalar → string)
    (σ : gmap loc obj) (r : loc) (a : list (list R))
    (m : gmap string Scalar) (s : gmap string setting)
    (u t1 t2 : Scalar) (d c : R) (out : list string) :
  is_map σ r a m s →
  m !! "CUNIT2" = Some u →
  m !! "CTYPE1" = Some t1 →
  m !! "CTYPE2" = Some t2 →
  m !! "CDELT2" = Some (Number d) →
  m !! "CDELT1" = Some (Number c) →
  ∃ σ',
    inspect_and_correct str_of r out σ =
      Done (out ++ [str_of u; str_of t1; str_of t2]) σ' ∧
    meta_of σ' r =
      Some (<["CDELT1" := Number (c * IZR (-1))%R]>
            (<["CDELT2" := Number (180 / PI * d)%R]>
             (<["CUNIT2" := Text "degree"]> m))).
Proof.
  intros (dl & mt & ps & Hr & Hd & Hmt & Hps) Hu H1 H2 Hx Hc.
  eexists. unfold inspect_and_correct, mbind, py_bind, bind.
  rewrite (inspect_header_run str_of σ r dl mt ps m Hr Hmt), Hu, H1, H2.
  rewrite (correct_header_run σ r dl mt ps m d c Hr Hmt Hx Hc).
  split; [reflexivity|].
  apply (written_meta_of σ r dl mt ps m Hr Hmt).
Qed.

Lemma prints_precede_correction_witness :
  ∃ σ',
    inspect_and_correct sample_str 1 [] (store_with full_header) =
      Done ["Sine Latitude"; "CRLN-CEA"; "CRLT-CEA"] σ' ∧
    meta_of σ' 1 =
      Some (<["CDELT1" := Number (1 * IZR (-1))%R]>
            (<["CDELT2" := Number (180 / PI * 1)%R]>
             (<["CUNIT2" := Text "degree"]> full_header))).
Proof.
  apply (prints_precede_correction sample_str (store_with full_header) 1 _ _ _
           (Text "Sine Latitude") (Text "CRLN-CEA") (Text "CRLT-CEA") 1 1 []
           (store_with_is_map full_header)); reflexivity.
Defined.

(** X4: a header without CUNIT2 stops lines 27 to 46 at the first print,
    with a KeyError and nothing written, although the correction on its own
    completes on that header and adds the entry. *)
Theorem script_needs_cunit2 (str_of : Scalar → string)
    (σ : gmap loc obj) (r : loc) (a : list (list R))
    (m : gmap string Scalar) (s : gmap string setting)
    (d c : R) (out : list string) :
  is_map σ r a m s →
  m !! "CUNIT2" = None →
  m !! "CDELT2" = Some (Number d) →
  m !! "CDELT1" = Some (Number c) →
  inspect_and_correct str_of r out σ = Raised (KeyError "CUNIT2") σ ∧
  ∃ σ' m',
    HMI.correct_header r σ = Done tt σ' ∧
    meta_of σ' r = Some m' ∧
    m' !! "CUNIT2" = Some (Text "degree").
Proof.
  intros (dl & mt & ps & Hr & Hd & Hmt & Hps) Hu Hx Hc. split.
  - unfold inspect_and_correct, mbind, py_bind, bind.
    by rewrite (inspect_header_run str_of σ r dl mt ps m Hr Hmt), Hu.
  - eexists _, _. split; [by eapply correct_header_run|].
    split; [apply (written_meta_of σ r dl mt ps m Hr Hmt)|].
    do 2 (rewrite lookup_insert_ne by done). apply lookup_insert_eq.
Qed.

Lemma script_needs_cunit2_witness :
  inspect_and_correct sample_str 1 []
    (store_with {[ "CDELT2" := Number 1; "CDELT1" := Number 1 ]}) =
    Raised (KeyError "CUNIT2")
      (store_with {[ "CDELT2" := Number 1; "CDELT1" := Number 1 ]}) ∧
  ∃ σ' m',
    HMI.correct_header 1
      (store_with {[ "CDELT2" := Number 1; "CDELT1" := Number 1 ]}) =
      Done tt σ' ∧
    meta_of σ' 1 = Some m' ∧
    m' !! "CUNIT2" = Some (Text "degree").
Proof.
  apply (script_needs_cunit2 sample_str _ 1 _ _ _ 1 1 []
           (store_with_is_map _)); reflexivity.
Defined.

(** ** Where the correction stops *)

(** The correction on a map, by the entries it finds. *)
Lemma correct_header_cases (σ : gmap loc obj) (r d mt ps : loc)
    (m : gmap string Scalar) :
  σ !! r = Some (GenericMap d mt ps) →
  σ !! mt = Some (MetaDict m) →
  HMI.correct_header r σ =
    let m1 := <["CUNIT2" := Text "degree"]> m in
    match m !! "CDELT2" with
    | None => Raised (KeyError "CDELT2") (<[mt := MetaDict m1]> σ)
    | Some (Text _) => Raised TypeError (<[mt := MetaDict m1]> σ)
    | Some (Number x) =>
        let m2 := <["CDELT2" := Number (180 / PI * x)%R]> m1 in
        match m !! "CDELT1" with
        | None => Raised (KeyError "CDELT1") (<[mt := MetaDict m2]> σ)
        | Some (Text _) =>
            Done tt (<[mt := MetaDict (<["CDELT1" := Text ""]> m2)]> σ)
        | Some (Number c) =>
            Done tt (<[mt := MetaDict
                         (<["CDELT1" := Number (c * IZR (-1))%R]> m2)]> σ)
        end
    end.
Proof.
  intros Hr Hmt. unfold HMI.correct_header, HMI.correction.
  rewrite (written_start σ mt m Hmt) at 1.
  hmi_step Hr Hmt. hmi_step Hr Hmt.
  destruct (m !! "CDELT2") as [[x|t]|]; try done.
  hmi_step Hr Hmt.
  destruct (m !! "CDELT1") as [[c|t]|]; try done.
Qed.

(** X5: without CDELT2 the correction raises KeyError at its second
    statement; CUNIT2 has been written by then, and nothing else has
    changed in the header. *)
Theorem correction_missing_cdelt2 (σ : gmap loc obj) (r : loc)
    (a : list (list R)) (m : gmap string Scalar) (s : gmap string setting) :
  is_map σ r a m s →
  m !! "CDELT2" = None →
  ∃ σ',
    HMI.correct_header r σ = Raised (KeyError "CDELT2") σ' ∧
    meta_of σ' r = Some (<["CUNIT2" := Text "degree"]> m).
Proof.
  intros (d & mt & ps & Hr & _ & Hmt & _) Hx. eexists.
  rewrite (correct_header_cases σ r d mt ps m Hr Hmt), Hx.
  split; [reflexivity|]. apply (written_meta_of σ r d mt ps m Hr Hmt).
Qed.

Lemma correction_missing_cdelt2_witness :
  ∃ σ',
    HMI.correct_header 1 (store_with {[ "CDELT1" := Number 1 ]}) =
      Raised (KeyError "CDELT2") σ' ∧
    meta_of σ' 1 =
      Some (<["CUNIT2" := Text "degree"]> {[ "CDELT1" := Number 1 ]}).
Proof.
  apply (correction_missing_cdelt2 _ 1 _ _ _ (store_with_is_map _)).
  reflexivity.
Defined.

(** X6: without CDELT1 the correction raises KeyError at its third
    statement, after CUNIT2 and CDELT2 have been corrected. *)
Theorem correction_missing_cdelt1 (σ : gmap loc obj) (r : loc)
    (a : list (list R)) (m : gmap string Scalar) (s : gmap string setting)
    (d : R) :
  is_map σ r a m s →
  m !! "CDELT2" = Some (Number d) →
  m !! "CDELT1" = None →
  ∃ σ',
    HMI.correct_header r σ = Raised (KeyError "CDELT1") σ' ∧
    meta_of σ' r =
      Some (<["CDELT2" := Number (180 / PI * d)%R]>
            (<["CUNIT2" := Text "degree"]> m)).
Proof.
  intros (dl & mt & ps & Hr & _ & Hmt & _) Hx Hc. eexists.
  rewrite (correct_header_cases σ r dl mt ps m Hr Hmt), Hx, Hc.
  split; [reflexivity|]. apply (written_meta_of σ r dl mt ps m Hr Hmt).
Qed.

Lemma correction_missing_cdelt1_witness :
  ∃ σ',
    HMI.correct_header 1 (store_with {[ "CDELT2" := Number 1 ]}) =
      Raised (KeyError "CDELT1") σ' ∧
    meta_of σ' 1 =
      Some (<["CDELT2" := Number (180 / PI * 1)%R]>
            (<["CUNIT2" := Text "degree"]> {[ "CDELT2" := Number 1 ]})).
Proof.
  apply (correction_missing_cdelt1 _ 1 _ _ _ 1 (store_with_is_map _));
    reflexivity.
Defined.

(** X7: a CDELT2 that is a string makes the correction raise TypeError at
    its second statement, with CUNIT2 already written. *)
Theorem correction_text_cdelt2 (σ : gmap loc obj) (r : loc)
    (a : list (list R)) (m : gmap string Scalar) (s : gmap string setting)
    (t : string) :
  is_map σ r a m s →
  m !! "CDELT2" = Some (Text t) →
  ∃ σ',
    HMI.correct_header r σ = Raised TypeError σ' ∧
    meta_of σ' r = Some (<["CUNIT2" := Text "degree"]> m).
Proof.
  intros (d & mt & ps & Hr & _ & Hmt & _) Hx. eexists.
  rewrite (correct_header_cases σ r d mt ps m Hr Hmt), Hx.
  split; [reflexivity|]. apply (written_meta_of σ r d mt ps m Hr Hmt).
Qed.

Lemma correction_text_cdelt2_witness :
  ∃ σ',
    HMI.correct_header 1 (store_with {[ "CDELT2" := Text "0.1" ]}) =
      Raised TypeError σ' ∧
    meta_of σ' 1 =
      Some (<["CUNIT2" := Text "degree"]> {[ "CDELT2" := Text "0.1" ]}).
Proof.
  apply (correction_text_cdelt2 _ 1 _ _ _ "0.1" (store_with_is_map _)).
  reflexivity.
Defined.

(** X8: a CDELT1 that is a string raises nothing: multiplied by -1 it
    becomes the empty string, and the correction completes. *)
Theorem correction_text_cdelt1 (σ : gmap loc obj) (r : loc)
    (a : list (list R)) (m : gmap string Scalar) (s : gmap string setting)
    (d : R) (t : string) :
  is_map σ r a m s →
  m !! "CDELT2" = Some (Number d) →
  m !! "CDELT1" = Some (Text t) →
  ∃ σ' m',
    HMI.correct_header r σ = Done tt σ' ∧
    meta_of σ' r = Some m' ∧
    m' !! "CDELT1" = Some (Text "").
Proof.
  intros (dl & mt & ps & Hr & _ & Hmt & _) Hx Hc. eexists _, _.
  rewrite (correct_header_cases σ r dl mt ps m Hr Hmt), Hx, Hc.
  split; [reflexivity|].
  split; [apply (written_meta_of σ r dl mt ps m Hr Hmt)|].
  apply lookup_insert_eq.
Qed.

Lemma correction_text_cdelt1_witness :
  ∃ σ' m',
    HMI.correct_header 1
      (store_with {[ "CDELT2" := Number 1; "CDELT1" := Text "-0.1" ]}) =
      Done tt σ' ∧
    meta_of σ' 1 = Some m' ∧
    m' !! "CDELT1" = Some (Text "").
Proof.
  apply (correction_text_cdelt1 _ 1 _ _ _ 1 "-0.1" (store_with_is_map _));
    reflexivity.
Defined.

(** ** What the correction leaves alone *)

(** X9: the correction changes the entries CUNIT2, CDELT2 and CDELT1 of the
    header and nothing else: every other key reads as before, CUNIT2 is the
    only key that can be new, and the array, the plot settings and the set
    of objects are as they were. *)
Theorem correction_frame (σ : gmap loc obj) (r : loc)
    (a : list (list R)) (m : gmap string Scalar) (s : gmap string setting)
    (d c : R) :
  is_map σ r a m s →
  m !! "CDELT2" = Some (Number d) →
  m !! "CDELT1" = Some (Number c) →
  ∃ σ' m',
    HMI.correct_header r σ = Done tt σ' ∧
    meta_of σ' r = Some m' ∧
    (∀ k, k ≠ "CUNIT2" → k ≠ "CDELT2" → k ≠ "CDELT1" → m' !! k = m !! k) ∧
    dom m' = {["CUNIT2"]} ∪ dom m ∧
    data_of σ' r = Some a ∧
    settings_of σ' r = Some s ∧
    dom σ' = dom σ.
Proof.
  intros (dl & mt & ps & Hr & Hd & Hmt & Hps) Hx Hc. eexists _, _.
  split; [by eapply correct_header_run|].
  split; [apply (written_meta_of σ r dl mt ps m Hr Hmt)|].
  split; [|split; [|split; [|split]]].
  - intros k H1 H2 H3. by rewrite !lookup_insert_ne.
  - rewrite dom_insert_lookup_L
      by (by rewrite lookup_insert_ne, lookup_insert_ne, Hc).
    rewrite dom_insert_lookup_L by (by rewrite lookup_insert_ne, Hx).
    apply dom_insert_L.
  - unfold data_of.
    rewrite (written_map σ r dl mt ps m Hr Hmt).
    by rewrite (lookup_other_kind σ dl mt _ _ _ Hd Hmt).
  - unfold settings_of.
    rewrite (written_map σ r dl mt ps m Hr Hmt).
    by rewrite (lookup_other_kind σ ps mt _ _ _ Hps Hmt).
  - by rewrite dom_insert_lookup_L by (by rewrite Hmt).
Qed.

Lemma correction_frame_witness :
  ∃ σ' m',
    HMI.correct_header 1 (store_with full_header) = Done tt σ' ∧
    meta_of σ' 1 = Some m' ∧
    (∀ k, k ≠ "CUNIT2" → k ≠ "CDELT2" → k ≠ "CDELT1" →
          m' !! k = full_header !! k) ∧
    dom m' = {["CUNIT2"]} ∪ dom full_header ∧
    data_of σ' 1 = Some [[0; 0]; [0; 0]]%R ∧
    settings_of σ' 1 = Some ∅ ∧
    dom σ' = dom (store_with full_header).
Proof.
  apply (correction_frame _ 1 _ _ _ 1 1 (store_with_is_map full_header));
    reflexivity.
Defined.

(** X10: the sign flip is an involution: running the statement
    [meta['CDELT1'] *= -1] twice on a numeric CDELT1 gives back the store
    it started from. *)
Theorem negate_cdelt1_twice (σ : gmap loc obj) (r : loc)
    (a : list (list R)) (m : gmap string Scalar) (s : gmap string setting)
    (c : R) :
  is_map σ r a m s →
  m !! "CDELT1" = Some (Number c) →
  ∃ σ1,
    HMI.fix_cdelt1 r σ = Done tt σ1 ∧
    meta_of σ1 r = Some (<["CDELT1" := Number (- c)%R]> m) ∧
    HMI.fix_cdelt1 r σ1 = Done tt σ.
Proof.
  intros (dl & mt & ps & Hr & _ & Hmt & _) Hc. eexists.
  split; [by rewrite (fix_cdelt1_run σ r dl mt ps m Hr Hmt), Hc|].
  split.
  - rewrite (written_meta_of σ r dl mt ps m Hr Hmt).
    do 3 f_equal. simpl. lra.
  - rewrite (fix_cdelt1_at σ r dl mt ps m Hr Hmt), lookup_insert_eq.
    rewrite insert_insert_eq.
    replace (c * IZR (-1) * IZR (-1))%R with c by (simpl; lra).
    by rewrite (insert_id m), (insert_id σ).
Qed.

Lemma negate_cdelt1_twice_witness :
  ∃ σ1,
    HMI.fix_cdelt1 1 hmi_store = Done tt σ1 ∧
    meta_of σ1 1 =
      Some (<["CDELT1" := Number (- 1)%R]>
            {[ "CUNIT2" := Text "Sine Latitude"; "CDELT2" := Number 1;
               "CDELT1" := Number 1 ]}) ∧
    HMI.fix_cdelt1 1 σ1 = Done tt hmi_store.
Proof.
  apply (negate_cdelt1_twice hmi_store 1 _ _ _ 1 hmi_store_is_map).
  reflexivity.
Defined.

(** ** The plot settings *)

Lemma plot_settings_swapped_run (σ : gmap loc obj) (r d mt ps : loc)
    (s : gmap string setting) :
  σ !! r = Some (GenericMap d mt ps) →
  σ !! ps = Some (PlotSettings s) →
  block [HMI.set_norm r; HMI.set_cmap r] σ =
    Done tt (<[ps := PlotSettings
                 (<["norm" := Norm (fresh (dom σ))]>
                  (<["cmap" := Cmap "hmimag"]> s))]>
             (<[fresh (dom σ) := Normalize (-1500) 1500]> σ)).
Proof.
  intros Hr Hps.
  rewrite block_cons, (set_norm_run σ r d mt ps s Hr Hps), block_cons.
  erewrite (set_cmap_run _ r d mt ps).
  - rewrite block_nil, insert_insert_eq. do 3 f_equal.
    by apply insert_insert_ne.
  - eapply lookup_other_kind;
      [by apply lookup_alloc_old|by apply lookup_alloc_old|done].
  - apply lookup_insert_eq.
Qed.

(** X11: the two plot-setting statements need no entry to be there: on any
    map they complete and leave the header as it was, 'cmap' set and 'norm'
    referring to a new normalisation object with the bounds -1500 and
    1500.  Running them again completes too and leaves 'cmap' as it is,
    but 'norm' then refers to another new object with the same bounds: the
    second run does not give back the store of the first. *)
Theorem plot_settings_rerun (σ : gmap loc obj) (r : loc)
    (a : list (list R)) (m : gmap string Scalar) (s : gmap string setting) :
  is_map σ r a m s →
  ∃ σ1 σ2 n1 n2,
    block [HMI.set_cmap r; HMI.set_norm r] σ = Done tt σ1 ∧
    block [HMI.set_cmap r; HMI.set_norm r] σ1 = Done tt σ2 ∧
    settings_of σ1 r =
      Some (<["norm" := Norm n1]> (<["cmap" := Cmap "hmimag"]> s)) ∧
    settings_of σ2 r =
      Some (<["norm" := Norm n2]> (<["cmap" := Cmap "hmimag"]> s)) ∧
    (n1 ∉ dom σ) ∧ (n2 ∉ dom σ1) ∧ n1 ≠ n2 ∧
    σ2 !! n1 = Some (Normalize (-1500) 1500) ∧
    σ2 !! n2 = Some (Normalize (-1500) 1500) ∧
    σ2 ≠ σ1 ∧
    meta_of σ2 r = Some m.
Proof.
  intros (d & mt & ps & Hr & Hd & Hmt & Hps).
  set (n1 := fresh (dom σ)).
  set (s1 := <["norm" := Norm n1]> (<["cmap" := Cmap "hmimag"]> s)).
  set (σ1 := <[ps := PlotSettings s1]> (<[n1 := Normalize (-1500) 1500]> σ)).
  set (n2 := fresh (dom σ1)).
  set (s2 := <["norm" := Norm n2]> (<["cmap" := Cmap "hmimag"]> s1)).
  set (σ2 := <[ps := PlotSettings s2]> (<[n2 := Normalize (-1500) 1500]> σ1)).
  assert (r ≠ mt ∧ r ≠ ps ∧ mt ≠ ps) as (N1 & N2 & N3)
    by (repeat split; intros ->; congruence).
  assert (r ≠ n1 ∧ mt ≠ n1 ∧ ps ≠ n1) as (F1 & F2 & F3)
    by (repeat split; by eapply fresh_ne).
  assert (Hr1 : σ1 !! r = Some (GenericMap d mt ps))
    by (subst σ1; by do 2 (rewrite lookup_insert_ne by ne)).
  assert (Hps1 : σ1 !! ps = Some (PlotSettings s1))
    by (subst σ1; apply lookup_insert_eq).
  assert (Hmt1 : σ1 !! mt = Some (MetaDict m))
    by (subst σ1; by do 2 (rewrite lookup_insert_ne by ne)).
  assert (Hn1 : σ1 !! n1 = Some (Normalize (-1500) 1500))
    by (subst σ1; by rewrite lookup_insert_ne by ne; rewrite lookup_insert_eq).
  assert (r ≠ n2 ∧ mt ≠ n2 ∧ ps ≠ n2 ∧ n1 ≠ n2) as (G1 & G2 & G3 & G4)
    by (repeat split; by eapply fresh_ne).
  assert (Hr2 : σ2 !! r = Some (GenericMap d mt ps))
    by (subst σ2; by do 2 (rewrite lookup_insert_ne by ne)).
  assert (Hn2 : σ2 !! n2 = Some (Normalize (-1500) 1500))
    by (subst σ2; by rewrite lookup_insert_ne by ne; rewrite lookup_insert_eq).
  exists σ1, σ2, n1, n2.
  split; [by eapply plot_settings_run|].
  split; [by erewrite (plot_settings_run σ1 r d mt ps s1)|].
  split; [unfold settings_of; by rewrite Hr1, Hps1|].
  split.
  { unfold settings_of. rewrite Hr2. subst σ2. rewrite lookup_insert_eq.
    f_equal. subst s2 s1. apply map_eq. intros k.
    repeat (rewrite lookup_insert; case_decide; subst; try done). }
  split; [apply is_fresh|]. split; [apply is_fresh|]. split; [done|].
  split; [subst σ2; by do 2 (rewrite lookup_insert_ne by ne)|].
  split; [done|].
  split.
  { intros Heq. apply (f_equal (λ st : gmap loc obj, st !! n2)) in Heq.
    rewrite Hn2 in Heq. symmetry in Heq.
    apply (elem_of_dom_2 (D := gset loc)) in Heq.
    by apply is_fresh in Heq. }
  unfold meta_of. rewrite Hr2. subst σ2.
  by do 2 (rewrite lookup_insert_ne by ne); rewrite Hmt1.
Qed.

Lemma plot_settings_rerun_witness :
  ∃ σ1 σ2 n1 n2,
    block [HMI.set_cmap 1; HMI.set_norm 1] hmi_store = Done tt σ1 ∧
    block [HMI.set_cmap 1; HMI.set_norm 1] σ1 = Done tt σ2 ∧
    settings_of σ1 1 =
      Some (<["norm" := Norm n1]> (<["cmap" := Cmap "hmimag"]> ∅)) ∧
    settings_of σ2 1 =
      Some (<["norm" := Norm n2]> (<["cmap" := Cmap "hmimag"]> ∅)) ∧
    (n1 ∉ dom hmi_store) ∧ (n2 ∉ dom σ1) ∧ n1 ≠ n2 ∧
    σ2 !! n1 = Some (Normalize (-1500) 1500) ∧
    σ2 !! n2 = Some (Normalize (-1500) 1500) ∧
    σ2 ≠ σ1 ∧
    meta_of σ2 1 =
      Some {[ "CUNIT2" := Text "Sine Latitude"; "CDELT2" := Number 1;
              "CDELT1" := Number 1 ]}.
Proof.
  apply (plot_settings_rerun hmi_store 1 _ _ _ hmi_store_is_map).
Defined.

(** X12: the plot settings and the header are different objects of the
    map, so setting 'norm' and 'cmap' first, in either order, and
    correcting the header afterwards ends in the store the script's order
    ends in. *)
Theorem settings_commute_with_correction (σ : gmap loc obj) (r : loc)
    (a : list (list R)) (m : gmap string Scalar) (s : gmap string setting)
    (d c : R) :
  is_map σ r a m s →
  m !! "CDELT2" = Some (Number d) →
  m !! "CDELT1" = Some (Number c) →
  block ([HMI.set_norm r; HMI.set_cmap r] ++ HMI.correction r) σ =
    HMI.adjust_map r σ ∧
  block ([HMI.set_cmap r; HMI.set_norm r] ++ HMI.correction r) σ =
    HMI.adjust_map r σ.
Proof.
  intros (dl & mt & ps & Hr & Hd & Hmt & Hps) Hx Hc.
  destruct (adjust_map_run σ r dl mt ps a m s d c Hr Hd Hmt Hps Hx Hc)
    as (-> & _).
  assert (r ≠ mt ∧ r ≠ ps ∧ mt ≠ ps) as (N1 & N2 & N3)
    by (repeat split; intros ->; congruence).
  assert (r ≠ fresh (dom σ) ∧ mt ≠ fresh (dom σ)) as (F1 & F2)
    by (split; by eapply fresh_ne).
  rewrite !block_app.
  rewrite (plot_settings_swapped_run σ r dl mt ps s Hr Hps).
  rewrite (plot_settings_run σ r dl mt ps s Hr Hps).
  fold (HMI.correct_header r).
  erewrite (correct_header_run _ r dl mt ps m d c); [|by do 2 (rewrite lookup_insert_ne by ne)..|done|done].
  rewrite (insert_insert_ne _ mt ps) by done.
  rewrite (insert_insert_ne _ mt (fresh (dom σ))) by done.
  replace (c * IZR (-1))%R with (- c)%R by (simpl; lra).
  done.
Qed.

Lemma settings_commute_with_correction_witness :
  block ([HMI.set_norm 1; HMI.set_cmap 1] ++ HMI.correction 1) hmi_store =
    HMI.adjust_map 1 hmi_store ∧
  block ([HMI.set_cmap 1; HMI.set_norm 1] ++ HMI.correction 1) hmi_store =
    HMI.adjust_map 1 hmi_store.
Proof.
  apply (settings_commute_with_correction hmi_store 1 _ _ _ 1 1
           hmi_store_is_map); reflexivity.
Defined.

(** ** The plot title *)

Lemma title_run (str_of : Scalar → string) (σ : gmap loc obj)
    (r d mt ps : loc) (m : gmap string Scalar) :
  σ !! r = Some (GenericMap d mt ps) →
  σ !! mt = Some (MetaDict m) →
  title str_of r σ =
    match m !! "content" with
    | None => Raised (KeyError "content") σ
    | Some content =>
        match m !! "CAR_ROT" with
        | None => Raised (KeyError "CAR_ROT") σ
        | Some (Text _) => Raised TypeError σ
        | Some (Number n) =>
            Done (str_of content +:+ " " +:+ str_of (Number n) +:+ "-"
                  +:+ str_of (Number (n + 1)%R)) σ
        end
    end.
Proof.
  intros Hr Hmt. unfold title, add_int. py_unfold. rewrite Hr, Hmt.
  destruct (m !! "content") as [content|]; [|done].
  rewrite Hr, Hmt.
  destruct (m !! "CAR_ROT") as [[n|t]|] eqn:Hrot; [| |done];
    by rewrite Hr, Hmt, Hrot.
Qed.

(** X13: the title is built from 'content' and 'CAR_ROT', which the
    correction does not write: on a map with a numeric CAR_ROT = n the
    title reads content, n and n + 1, and it is the same text before and
    after the correction; building it changes nothing. *)
Theorem title_unchanged_by_correction (str_of : Scalar → string)
    (σ : gmap loc obj) (r : loc) (a : list (list R))
    (m : gmap string Scalar) (s : gmap string setting)
    (content : Scalar) (n d c : R) :
  is_map σ r a m s →
  m !! "content" = Some content →
  m !! "CAR_ROT" = Some (Number n) →
  m !! "CDELT2" = Some (Number d) →
  m !! "CDELT1" = Some (Number c) →
  let t := str_of content +:+ " " +:+ str_of (Number n) +:+ "-"
           +:+ str_of (Number (n + 1)%R) in
  ∃ σ',
    HMI.correct_header r σ = Done tt σ' ∧
    title str_of r σ = Done t σ ∧
    title str_of r σ' = Done t σ'.
Proof.
  intros (dl & mt & ps & Hr & _ & Hmt & _) Hcont Hrot Hx Hc t. eexists.
  split; [by eapply correct_header_run|].
  split.
  - by rewrite (title_run str_of σ r dl mt ps m Hr Hmt), Hcont, Hrot.
  - erewrite (title_run str_of _ r dl mt ps);
      [|by eapply written_map|apply lookup_insert_eq].
    do 3 (rewrite lookup_insert_ne by done). rewrite Hcont.
    do 3 (rewrite lookup_insert_ne by done). by rewrite Hrot.
Qed.

Lemma title_unchanged_by_correction_witness :
  ∃ σ',
    HMI.correct_header 1 (store_with full_header) = Done tt σ' ∧
    title sample_str 1 (store_with full_header) =
      Done "Carrington Synoptic Chart Of Br Field #-#" (store_with full_header) ∧
    title sample_str 1 σ' =
      Done "Carrington Synoptic Chart Of Br Field #-#" σ'.
Proof.
  apply (title_unchanged_by_correction sample_str (store_with full_header) 1
           _ _ _ (Text "Carrington Synoptic Chart Of Br Field") 2191 1 1
           (store_with_is_map full_header)); reflexivity.
Defined.

(** X14: the title line fails on an incomplete header: KeyError for
    'content' when it is missing, else KeyError for 'CAR_ROT' when that is
    missing, and TypeError when CAR_ROT is a string, which cannot be added
    to 1; the store is as it was in each case. *)
Theorem title_errors (str_of : Scalar → string)
    (σ : gmap loc obj) (r : loc) (a : list (list R))
    (m : gmap string Scalar) (s : gmap string setting) :
  is_map σ r a m s →
  (m !! "content" = None →
   title str_of r σ = Raised (KeyError "content") σ) ∧
  (is_Some (m !! "content") → m !! "CAR_ROT" = None →
   title str_of r σ = Raised (KeyError "CAR_ROT") σ) ∧
  (∀ t, is_Some (m !! "content") → m !! "CAR_ROT" = Some (Text t) →
   title str_of r σ = Raised TypeError σ).
Proof.
  intros (d & mt & ps & Hr & _ & Hmt & _).
  rewrite (title_run str_of σ r d mt ps m Hr Hmt).
  repeat split.
  - by intros ->.
  - by intros [c ->] ->.
  - by intros t [c ->] ->.
Qed.

Lemma title_errors_witness :
  title sample_str 1 hmi_store = Raised (KeyError "content") hmi_store.
Proof.
  apply (title_errors sample_str hmi_store 1 _ _ _ hmi_store_is_map).
  reflexivity.
Defined.

(** ** The filter under a change of intensities *)

Section intensities.
Import Ndimage.

Lemma shape_scale (c : R) (a : list (list R)) : shape (scale c a) = shape a.
Proof.
  destruct a as [|row a]; [done|].
  unfold shape, scale. csimpl. by rewrite !length_fmap.
Qed.

Lemma pixel_scale (c : R) (a : list (list R)) (i j : Z) :
  pixel 0 (scale c a) i j = (c * pixel 0 a i j)%R.
Proof.
  unfold pixel, scale. case_decide; [|lra].
  rewrite list_lookup_fmap. destruct (a !! Z.to_nat i) as [row|]; simpl; [|lra].
  rewrite list_lookup_fmap. destruct (row !! Z.to_nat j); simpl; lra.
Qed.

Lemma scale_tabulate (c : R) (sh : nat * nat) (f : nat → nat → R) :
  scale c (tabulate sh f) = tabulate sh (λ i j, (c * f i j)%R).
Proof.
  unfold scale, tabulate. rewrite <- list_fmap_compose.
  apply list_fmap_ext. intros _ i _. simpl.
  by rewrite <- list_fmap_compose.
Qed.

Lemma correlate1d_scale (w0 w1 w2 c : R) (ax : axis) (a : list (list R)) :
  correlate1d [w0; w1; w2] ax 0 (scale c a) =
    scale c (correlate1d [w0; w1; w2] ax 0 a).
Proof.
  unfold correlate1d. rewrite shape_scale, scale_tabulate.
  apply tabulate_ext. intros i j _ _.
  destruct ax; rewrite !correlate_at_3, !pixel_scale; lra.
Qed.

Lemma sobel_scale (c : R) (a : list (list R)) (ax : axis) :
  sobel (scale c a) ax = scale c (sobel a ax).
Proof. unfold sobel. by rewrite !correlate1d_scale. Qed.

Lemma sobel_is_table (a : list (list R)) (ax : axis) :
  ∃ f, sobel a ax = tabulate (shape a) f.
Proof.
  unfold sobel. unfold correlate1d at 1. rewrite shape_correlate1d. eauto.
Qed.

Lemma hypot_scale (c x y : R) : hypot (c * x) (c * y) = (Rabs c * hypot x y)%R.
Proof.
  unfold hypot.
  replace (c * x * (c * x) + c * y * (c * y))%R
    with (Rsqr c * (x * x + y * y))%R by (unfold Rsqr; lra).
  rewrite sqrt_mult; [|apply Rle_0_sqr|nra].
  by rewrite sqrt_Rsqr_abs.
Qed.

(** X15: scaling the intensities scales the edges: the edge-enhanced array
    of [c * a] is [|c|] times the edge-enhanced array of [a]; in
    particular an image and its negative have the same edges. *)
Theorem edge_enhance_scale (c : R) (a : list (list R)) :
  edge_enhance (scale c a) = scale (Rabs c) (edge_enhance a) ∧
  edge_enhance (scale (-1) a) = edge_enhance a.
Proof.
  assert (∀ c', edge_enhance (scale c' a) = scale (Rabs c') (edge_enhance a))
    as Hscale.
  { intros c'. unfold edge_enhance. rewrite !sobel_scale.
    destruct (sobel_is_table a Axis0) as [f ->].
    destruct (sobel_is_table a Axis1) as [g ->].
    rewrite !scale_tabulate, !hypot_arr_tabulate, scale_tabulate.
    apply tabulate_ext. intros i j _ _. apply hypot_scale. }
  split; [apply Hscale|].
  rewrite Hscale.
  replace (Rabs (-1)) with 1%R by (unfold Rabs; destruct Rcase_abs; lra).
  destruct (edge_enhance_tabulate a) as (f & g & ->).
  rewrite scale_tabulate. apply tabulate_ext. intros i j _ _. lra.
Qed.

Lemma pixel_inside (a : list (list R)) (i j : Z) :
  rectangular (shape a).2 a →
  (0 ≤ i < Z.of_nat (shape a).1)%Z →
  (0 ≤ j < Z.of_nat (shape a).2)%Z →
  ∃ row, a !! Z.to_nat i = Some row ∧
         row !! Z.to_nat j = Some (pixel 0 a i j).
Proof.
  intros Hrect Hi Hj.
  destruct (lookup_lt_is_Some_2 a (Z.to_nat i)) as [row Hrow];
    [simpl in Hi; lia|].
  assert (length row = (shape a).2) as Hlen.
  { unfold rectangular in Hrect. rewrite Forall_lookup in Hrect. by eapply Hrect. }
  destruct (lookup_lt_is_Some_2 row (Z.to_nat j)) as [x Hx]; [lia|].
  exists row. split; [done|].
  unfold pixel. by rewrite decide_True, Hrow, Hx by lia.
Qed.

Lemma shape_offset (k : R) (a : list (list R)) : shape (offset k a) = shape a.
Proof.
  destruct a as [|row a]; [done|].
  unfold shape, offset. csimpl. by rewrite !length_fmap.
Qed.

Lemma rectangular_offset (k : R) (m : nat) (a : list (list R)) :
  rectangular m a → rectangular m (offset k a).
Proof.
  unfold rectangular, offset. intros Hrect.
  apply Forall_fmap. eapply Forall_impl; [done|].
  intros row Hlen. simpl. by rewrite length_fmap.
Qed.

Lemma pixel_offset (k : R) (a : list (list R)) (i j : Z) :
  rectangular (shape a).2 a →
  (0 ≤ i < Z.of_nat (shape a).1)%Z →
  (0 ≤ j < Z.of_nat (shape a).2)%Z →
  pixel 0 (offset k a) i j = (pixel 0 a i j + k)%R.
Proof.
  intros Hrect Hi Hj.
  destruct (pixel_inside a i j Hrect Hi Hj) as (row & Hrow & Hx).
  unfold pixel at 1. unfold offset.
  rewrite decide_True, list_lookup_fmap, Hrow by lia. simpl.
  by rewrite list_lookup_fmap, Hx.
Qed.

(** The edge-enhanced array at a pixel of a rectangular array. *)
Lemma pixel_edge_enhance (a : list (list R)) (i j : Z) :
  rectangular (shape a).2 a →
  (0 ≤ i < Z.of_nat (shape a).1)%Z →
  (0 ≤ j < Z.of_nat (shape a).2)%Z →
  pixel 0 (edge_enhance a) i j =
    hypot (sobel_kernel a Axis0 i j) (sobel_kernel a Axis1 i j).
Proof.
  intros Hrect Hi Hj. rewrite edge_enhance_closed_form by done.
  destruct (shape a) as [n k]. simpl in Hi, Hj.
  rewrite pixel_tabulate, decide_True by lia.
  by rewrite !Z2Nat.id by lia.
Qed.

(** X16: away from the border the filter sees only differences: in exact
    arithmetic, adding a constant to every intensity leaves the
    edge-enhanced array unchanged at every pixel whose four neighbours lie
    inside the array. *)
Theorem edge_enhance_offset_interior (k : R) (a : list (list R)) (i j : Z) :
  rectangular (shape a).2 a →
  (1 ≤ i ∧ i + 1 < Z.of_nat (shape a).1)%Z →
  (1 ≤ j ∧ j + 1 < Z.of_nat (shape a).2)%Z →
  pixel 0 (edge_enhance (offset k a)) i j = pixel 0 (edge_enhance a) i j.
Proof.
  intros Hrect Hi Hj.
  assert (rectangular (shape (offset k a)).2 (offset k a)) as Hrect'
    by (rewrite shape_offset; by apply rectangular_offset).
  rewrite !pixel_edge_enhance
    by first [exact Hrect' | exact Hrect | rewrite ?shape_offset; lia].
  unfold sobel_kernel. rewrite !pixel_offset by first [exact Hrect | lia].
  f_equal; lra.
Qed.

Lemma step3_rectangular : rectangular (shape step3).2 step3.
Proof. repeat constructor. Defined.

Lemma edge_enhance_offset_interior_witness :
  pixel 0 (edge_enhance (offset 5 step3)) 1 1 =
    pixel 0 (edge_enhance step3) 1 1 ∧
  pixel 0 (edge_enhance step3) 1 1 = 4%R.
Proof.
  split.
  - apply (edge_enhance_offset_interior 5 step3 1 1 step3_rectangular);
      simpl; lia.
  - rewrite pixel_edge_enhance by (apply step3_rectangular || (simpl; lia)).
    unfold sobel_kernel, pixel, step3. simpl. unfold hypot.
    match goal with
    | |- sqrt ?e = _ => replace e with (4 * 4)%R by lra
    end.
    apply sqrt_square. lra.
Defined.

(** X17: an image of a single pixel has no edges: whatever its value, the
    edge-enhanced array is the single entry 0. *)
Theorem edge_enhance_single_pixel (x : R) :
  edge_enhance [[x]] = [[0%R]].
Proof.
  rewrite edge_enhance_closed_form by repeat constructor.
  unfold tabulate, sobel_kernel, pixel. simpl.
  do 2 f_equal.
  replace (0 - 0 + 2 * (0 - 0) + (0 - 0))%R with 0%R by lra.
  apply hypot_0_0.
Qed.

(** X18: on a constant-valued array with at least two rows and two
    columns, zero padding gives the corner pixel (0, 0) the value
    |3 v| sqrt 2, which is zero only for the constant 0. *)
Theorem constant_array_corner (v : R) (a : list (list R)) :
  rectangular (shape a).2 a →
  constant_valued v a →
  2 ≤ (shape a).1 →
  2 ≤ (shape a).2 →
  pixel 0 (edge_enhance a) 0 0 = (Rabs (3 * v) * sqrt 2)%R ∧
  (v ≠ 0%R → pixel 0 (edge_enhance a) 0 0 ≠ 0%R).
Proof.
  intros Hrect Hconst Hn Hm.
  assert (pixel 0 (edge_enhance a) 0 0 = (Rabs (3 * v) * sqrt 2)%R) as Heq.
  { rewrite pixel_edge_enhance by (done || lia).
    assert (∀ i' j', (0 ≤ i' < 2)%Z → (0 ≤ j' < 2)%Z → pixel 0 a i' j' = v)
      as Hin by (intros; apply pixel_constant; done || lia).
    assert (∀ i', pixel 0 a i' (-1) = 0%R) as Hleft
      by (intros; eapply pixel_outside_columns; done || lia).
    assert (∀ j', pixel 0 a (-1) j' = 0%R) as Hup
      by (intros; apply pixel_outside_rows; lia).
    unfold sobel_kernel. simpl Z.add. simpl Z.sub.
    rewrite !Hleft, !Hup, !Hin by lia.
    replace (0 - 0 + 2 * (v - 0) + (v - 0))%R with (3 * v * 1)%R by lra.
    rewrite hypot_scale. f_equal. unfold hypot. f_equal. lra. }
  split; [done|]. intros Hv. rewrite Heq.
  apply Rmult_integral_contrapositive_currified.
  - apply Rabs_no_R0. lra.
  - apply Rgt_not_eq, sqrt_lt_R0. lra.
Qed.

Lemma constant_array_corner_witness :
  pixel 0 (edge_enhance ones3) 0 0 = (Rabs (3 * 1) * sqrt 2)%R ∧
  (1%R ≠ 0%R → pixel 0 (edge_enhance ones3) 0 0 ≠ 0%R).
Proof.
  apply (constant_array_corner 1 ones3 ones3_rectangular ones3_constant);
    simpl; lia.
Defined.
End intensities.
